(** * Coupled solver / tracker demo: group partitioning, the directed
    broadcast over an intercommunicator and the start-up handshake.

    The development embeds [MPIUtility.py], [solver.py] and [tracker.py].
    The mpi4py calls the programs make are given an executable model in
    [Module MPI]; the programs themselves are translated function by
    function, keeping their names. *)

From Stdlib Require Import ZArith Lia.
From stdpp Require Import base option list strings sorting.

Open Scope Z_scope.

(** ** The mpi4py calls used by the programs *)

Module MPI.

(** A communicator: a context and the ordered list of its members.  The
    position of a member in [group] is its rank in the communicator; the
    members themselves are named by their rank in the parent (world)
    communicator. *)
Record Comm : Type := { context : nat; group : list nat }.

(** [COMM_WORLD] of a universe of [size] processes. *)
Definition COMM_WORLD (size : nat) : Comm :=
  {| context := 0; group := seq 0 size |}.

Definition Get_size (comm : Comm) : nat := length (group comm).

(** [comm.Get_rank()] as seen by the process with world rank [world_rank]:
    its position in the group. *)
Definition Get_rank (comm : Comm) (world_rank : nat) : option nat :=
  fst <$> list_find (eq world_rank) (group comm).

(** [comm.allgather(obj)]: every process receives the contributions of all
    ranks, in rank order.  [contributions] lists what each rank passed. *)
Definition allgather {A : Type} (contributions : list A) : list A :=
  contributions.

(** The (color, key) pair rank [q] passed to [Split]. *)
Definition color_of (calls : list (nat * nat)) (q : nat) : option nat :=
  fst <$> calls !! q.
Definition key_of (calls : list (nat * nat)) (q : nat) : nat :=
  default 0%nat (snd <$> calls !! q).

(** Order of the new ranks: by key, ties broken by the rank in the old
    communicator. *)
Definition key_le (calls : list (nat * nat)) (q1 q2 : nat) : Prop :=
  (key_of calls q1 < key_of calls q2)%nat ∨
  (key_of calls q1 = key_of calls q2 ∧ (q1 ≤ q2)%nat).

#[global] Instance key_le_dec calls q1 q2 : Decision (key_le calls q1 q2).
Proof. unfold key_le. apply _. Defined.

(** [intracomm.Split(color, key)]: [calls] lists the (color, key) pair of
    every rank of [intracomm]; the result is the communicator handed to
    [rank]: the ranks that passed the same color, ordered by key. *)
Definition Split (intracomm : Comm) (calls : list (nat * nat)) (rank : nat)
    : option Comm :=
  color ← color_of calls rank;
  Some {| context := S (context intracomm);
          group := merge_sort (key_le calls)
                     (filter (λ q, color_of calls q = Some color)
                             (seq 0 (length calls))) |}.

#[global] Instance Comm_eq_dec : EqDecision Comm.
Proof. solve_decision. Defined.

(** Results of [MPI.Comm.Compare]. *)
Inductive comparison : Type := IDENT | CONGRUENT | SIMILAR | UNEQUAL.

#[global] Instance comparison_eq_dec : EqDecision comparison.
Proof. solve_decision. Defined.

(** [MPI.Comm.Compare(comm1, comm2)]: the same communicator is [IDENT],
    the same members in the same order [CONGRUENT], the same members in
    another order [SIMILAR], anything else [UNEQUAL]. *)
Definition Compare (comm1 comm2 : Comm) : comparison :=
  if decide (context comm1 = context comm2 ∧ group comm1 = group comm2)
  then IDENT
  else if decide (group comm1 = group comm2) then CONGRUENT
  else if decide (group comm1 ≡ₚ group comm2) then SIMILAR
  else UNEQUAL.

(** The special root arguments [MPI.ROOT] and [MPI.PROC_NULL].  Their
    values depend on the MPI library underneath mpi4py; all of them use
    two different negative integers, so that neither is a valid rank. *)
Class Constants : Type := {
  ROOT : Z;
  PROC_NULL : Z;
  ROOT_negative : ROOT < 0;
  PROC_NULL_negative : PROC_NULL < 0;
  ROOT_PROC_NULL : ROOT ≠ PROC_NULL
}.

(** An intercommunicator as one of its members sees it: the ordered
    members (world ranks) of its own group and of the remote group. *)
Record Intercomm : Type :=
  { local_group : list nat; remote_group : list nat }.

#[global] Instance Intercomm_eq_dec : EqDecision Intercomm.
Proof. solve_decision. Defined.

(** The same intercommunicator as the remote group sees it. *)
Definition mirror (intercomm : Intercomm) : Intercomm :=
  {| local_group := remote_group intercomm;
     remote_group := local_group intercomm |}.

End MPI.

(** ** MPIUtility.py *)

(** Python's [list.index]: position of the first element equal to [x];
    [None] stands for the [ValueError] raised when there is none. *)
Definition index (l : list string) (x : string) : option nat :=
  fst <$> list_find (eq x) l.

(** The [color_index] computed by rank [rank] in [partition_by_string], in a
    universe whose rank [q] passes [universe !! q] as its [color_string]. *)
Definition color_index (universe : list string) (rank : nat) : option nat :=
  color_string ← universe !! rank;
  let colors := MPI.allgather universe in
  index colors color_string.

(** The arguments rank [rank] passes to [intracomm.Split]. *)
Definition split_call (universe : list string) (rank : nat)
    : option (nat * nat) :=
  color_index ← color_index universe rank;
  Some (color_index, rank).

(** [partition_by_string(intracomm, color_string)] called by every rank of
    the world communicator; the result is the communicator returned to
    [rank]. *)
Definition partition_by_string (universe : list string) (rank : nat)
    : option MPI.Comm :=
  calls ← mapM (split_call universe) (seq 0 (length universe));
  MPI.Split (MPI.COMM_WORLD (length universe)) calls rank.

(** ** Processes

    A process is the tree of the blocking MPI calls it makes; each call
    carries its arguments and the rest of the program as a function of the
    value the call returns.  [Ret] is a program that went through all its
    statements up to [MPI.Finalize()], which lets it end with exit status 0
    once the other processes are done as well; [Exit] is
    [sys.exit(status)].
    The programs only broadcast over the world communicator and always
    name it as the peer of [Create_intercomm], so that a remote leader is
    a world rank.  Console output and [time.sleep] are left out. *)

Inductive proc (A : Type) : Type :=
  | Ret (a : A)
  | Exit (status : Z)
  | World_bcast (obj : Z) (root : Z) (k : Z → proc A)
  | Create_intercomm (local_comm : MPI.Comm) (local_leader : Z)
      (remote_leader : Z) (k : MPI.Intercomm → proc A)
  | Intercomm_bcast (intercomm : MPI.Intercomm) (obj : option Z) (root : Z)
      (k : option Z → proc A)
  | Allgather (intercomm : MPI.Intercomm) (sendbuf recvbuf : list Z)
      (k : list Z → proc A)
  | Barrier (intercomm : MPI.Intercomm) (k : unit → proc A).

Arguments Ret {A} a.
Arguments Exit {A} status.
Arguments World_bcast {A} obj root k.
Arguments Create_intercomm {A} local_comm local_leader remote_leader k.
Arguments Intercomm_bcast {A} intercomm obj root k.
Arguments Allgather {A} intercomm sendbuf recvbuf k.
Arguments Barrier {A} intercomm k.

Fixpoint proc_bind {A B : Type} (f : A → proc B) (m : proc A) : proc B :=
  match m with
  | Ret a => f a
  | Exit status => Exit status
  | World_bcast obj root k => World_bcast obj root (λ x, proc_bind f (k x))
  | Create_intercomm c l r k =>
      Create_intercomm c l r (λ x, proc_bind f (k x))
  | Intercomm_bcast i obj root k =>
      Intercomm_bcast i obj root (λ x, proc_bind f (k x))
  | Allgather i s r k => Allgather i s r (λ x, proc_bind f (k x))
  | Barrier i k => Barrier i (λ x, proc_bind f (k x))
  end.

#[global] Instance proc_mret : MRet proc := @Ret.
#[global] Instance proc_mbind : MBind proc := @proc_bind.

(** The calls as the programs write them. *)
Definition world_bcast (obj root : Z) : proc Z := World_bcast obj root Ret.
Definition create_intercomm (local_comm : MPI.Comm) (local_leader : Z)
    (remote_leader : Z) : proc MPI.Intercomm :=
  Create_intercomm local_comm local_leader remote_leader Ret.
Definition intercomm_bcast (intercomm : MPI.Intercomm) (obj : option Z)
    (root : Z) : proc (option Z) :=
  Intercomm_bcast intercomm obj root Ret.
Definition intercomm_Allgather (intercomm : MPI.Intercomm)
    (sendbuf recvbuf : list Z) : proc (list Z) :=
  Allgather intercomm sendbuf recvbuf Ret.
Definition intercomm_Barrier (intercomm : MPI.Intercomm) : proc unit :=
  Barrier intercomm Ret.

(** An uncaught Python exception ends the process with status 1. *)
Definition uncaught_exception {A : Type} : proc A := Exit 1.

Section programs.
Context `{MPI.Constants}.

(** The [value] and [root] that [intercomm_broadcast] hands to
    [intercomm.bcast]. *)
Definition intercomm_broadcast_args (send_value : Z)
    (local_rank local_root : Z) (sending_flag : bool) : option Z * Z :=
  if sending_flag then
    if decide (local_rank = local_root) then (Some send_value, MPI.ROOT)
    else (None, MPI.PROC_NULL)
  else (None, local_root).

Definition intercomm_broadcast (intercomm : MPI.Intercomm)
    (send_value : Z) (local_rank local_root : Z) (sending_flag : bool)
    : proc (option Z) :=
  let '(value, local_root) :=
    intercomm_broadcast_args send_value local_rank local_root sending_flag in
  intercomm_bcast intercomm value local_root.

End programs.

(** ** solver.py and tracker.py *)

(** The velocity arrays of a process.  An element stands for the double
    that holds this integer: the programs only fill the arrays with rank
    numbers and move them around. *)
Record fields : Type :=
  { velocity_x : list Z; velocity_y : list Z; velocity_z : list Z }.

(** [np.ones(n) * value] and [np.empty(n)]; a negative [n] raises
    [ValueError].  The unspecified contents of [np.empty] are taken as 0.
    The arrays are taken to fit in memory: the error numpy raises for a
    size it cannot allocate is not described. *)
Definition np_ones_times (n : Z) (value : Z) : option (list Z) :=
  if decide (0 ≤ n) then Some (replicate (Z.to_nat n) value) else None.
Definition np_empty (n : Z) : option (list Z) :=
  if decide (0 ≤ n) then Some (replicate (Z.to_nat n) 0) else None.
Definition empty_data : list Z := [].

(** The two [configure] functions are called with the size of a
    communicator, which is at least 1; a size of 0, at which [%] raises
    [ZeroDivisionError], is not described. *)
Definition configure_solver (application_rank application_size
    number_grid_points : Z) : Z :=
  let error_count := 0 in
  if decide (number_grid_points ≤ 0) then error_count + 1
  else if decide (number_grid_points `mod` application_size ≠ 0)
       then error_count + 1
       else error_count.

Definition configure_tracker (application_rank application_size
    number_particles : Z) : Z :=
  let error_count := 0 in
  if decide (number_particles ≤ 0) then error_count
  else if decide (number_particles `mod` application_size ≠ 0)
       then error_count + 1
       else error_count.

(** [startup_error_count > 0] for a value that may be [None], which
    compares below every number. *)
Definition positive_count (startup_error_count : option Z) : bool :=
  match startup_error_count with
  | Some count => bool_decide (count > 0)
  | None => false
  end.

Section scripts.
Context `{MPI.Constants}.

(** The three transfers of one solver iteration. *)
Definition solver_transfer (intercomm : MPI.Intercomm) (v : fields)
    : proc unit :=
  _ ← intercomm_Allgather intercomm (velocity_x v) empty_data;
  _ ← intercomm_Allgather intercomm (velocity_y v) empty_data;
  _ ← intercomm_Allgather intercomm (velocity_z v) empty_data;
  mret ().

(** [for iteration_count in range( number_iterations )] of the solver;
    [intercomm] is [None] when [coupled_flag] is false. *)
Fixpoint solver_loop (intercomm : option MPI.Intercomm) (v : fields)
    (number_iterations : nat) : proc fields :=
  match number_iterations with
  | O => mret v
  | S remaining =>
      _ ← match intercomm with
          | Some intercomm => solver_transfer intercomm v
          | None => mret ()
          end;
      solver_loop intercomm v remaining
  end.

(** The solver confirms over the channel that the tracker started up. *)
Definition solver_confirm (intercomm : MPI.Intercomm)
    (application_rank : Z) : proc (option MPI.Intercomm) :=
  startup_error_count ←
    intercomm_broadcast intercomm 0 application_rank 0 false;
  if positive_count startup_error_count then Exit 1
  else mret (Some intercomm).

(** The solver from the set-up of its communicator with the tracker on. *)
Definition solver_coupling (application_comm : MPI.Comm)
    (world_size : nat) (application_rank application_size : Z)
    : proc (option MPI.Intercomm) :=
  let coupled_flag :=
    bool_decide (MPI.Compare application_comm (MPI.COMM_WORLD world_size)
                 = MPI.UNEQUAL) in
  if coupled_flag then
    intercomm ← create_intercomm application_comm 0 application_size;
    solver_confirm intercomm application_rank
  else mret None.

Definition solver_run (intercomm : option MPI.Intercomm)
    (application_rank application_size : Z)
    (number_iterations number_grid_points : Z) : proc fields :=
  let grid_per_rank := number_grid_points `div` application_size in
  match np_ones_times grid_per_rank application_rank with
  | None => uncaught_exception
  | Some velocity =>
      solver_loop intercomm
        {| velocity_x := velocity; velocity_y := velocity;
           velocity_z := velocity |}
        (Z.to_nat number_iterations)
  end.

(** The solver once its own start-up succeeded. *)
Definition solver_started (application_comm : MPI.Comm) (world_size : nat)
    (application_rank application_size : Z)
    (number_iterations number_grid_points : Z) : proc fields :=
  intercomm ← solver_coupling application_comm world_size
                application_rank application_size;
  solver_run intercomm application_rank application_size
    number_iterations number_grid_points.

(** [solver.py], run by world rank [world_rank] with well-formed
    arguments, in a universe whose ranks were started as [universe]
    ([sys.argv[0]] of every rank). *)
Definition solver (universe : list string) (world_rank : nat)
    (number_iterations number_grid_points : Z) : proc fields :=
  let world_size := length universe in
  match partition_by_string universe world_rank with
  | None => uncaught_exception
  | Some application_comm =>
    match MPI.Get_rank application_comm world_rank with
    | None => uncaught_exception
    | Some application_rank =>
      let application_rank := Z.of_nat application_rank in
      let application_size := Z.of_nat (MPI.Get_size application_comm) in
      let startup_error_count :=
        configure_solver application_rank application_size
          number_grid_points in
      _ ← world_bcast startup_error_count 0;
      if bool_decide (startup_error_count > 0) then Exit 1
      else solver_started application_comm world_size application_rank
             application_size number_iterations number_grid_points
    end
  end.

(** The three transfers of one tracker iteration: the receive buffers
    are overwritten in place. *)
Definition tracker_transfer (intercomm : MPI.Intercomm) (v : fields)
    : proc fields :=
  velocity_x ← intercomm_Allgather intercomm empty_data (velocity_x v);
  velocity_y ← intercomm_Allgather intercomm empty_data (velocity_y v);
  velocity_z ← intercomm_Allgather intercomm empty_data (velocity_z v);
  mret {| velocity_x := velocity_x; velocity_y := velocity_y;
          velocity_z := velocity_z |}.

Fixpoint tracker_loop (intercomm : MPI.Intercomm) (v : fields)
    (number_iterations : nat) : proc fields :=
  match number_iterations with
  | O => mret v
  | S remaining =>
      v ← tracker_transfer intercomm v;
      tracker_loop intercomm v remaining
  end.

Definition tracker_run (intercomm : MPI.Intercomm)
    (number_iterations number_grid_points : Z) : proc fields :=
  match np_empty number_grid_points with
  | None => uncaught_exception
  | Some velocity =>
      tracker_loop intercomm
        {| velocity_x := velocity; velocity_y := velocity;
           velocity_z := velocity |}
        (Z.to_nat number_iterations)
  end.

(** The tracker sends its start-up status to the solver. *)
Definition tracker_report (intercomm : MPI.Intercomm)
    (startup_error_count application_rank : Z)
    (number_iterations number_grid_points : Z) : proc fields :=
  _ ← intercomm_broadcast intercomm startup_error_count
        application_rank 0 true;
  if bool_decide (startup_error_count > 0) then Exit 1
  else tracker_run intercomm number_iterations number_grid_points.

(** The tracker once the solver is known to have started up. *)
Definition tracker_handshake (application_comm : MPI.Comm)
    (application_rank application_size : Z)
    (number_iterations number_grid_points number_particles : Z)
    : proc fields :=
  let startup_error_count :=
    configure_tracker application_rank application_size
      number_particles in
  intercomm ← create_intercomm application_comm 0 0;
  tracker_report intercomm startup_error_count application_rank
    number_iterations number_grid_points.

(** The tracker once it knows a solver is there. *)
Definition tracker_coupled (application_comm : MPI.Comm)
    (application_rank application_size : Z)
    (number_iterations number_grid_points number_particles : Z)
    : proc fields :=
  startup_error_count ← world_bcast 0 0;
  if bool_decide (startup_error_count > 0) then Exit 1
  else tracker_handshake application_comm application_rank
         application_size number_iterations number_grid_points
         number_particles.

(** [tracker.py], with the same conventions as [solver]. *)
Definition tracker (universe : list string) (world_rank : nat)
    (number_iterations number_grid_points number_particles : Z)
    : proc fields :=
  let world_size := length universe in
  match partition_by_string universe world_rank with
  | None => uncaught_exception
  | Some application_comm =>
    match MPI.Get_rank application_comm world_rank with
    | None => uncaught_exception
    | Some application_rank =>
      let application_rank := Z.of_nat application_rank in
      let application_size := Z.of_nat (MPI.Get_size application_comm) in
      let coupled_flag :=
        bool_decide (MPI.Compare application_comm
                       (MPI.COMM_WORLD world_size) = MPI.UNEQUAL) in
      if negb coupled_flag then Exit 1
      else tracker_coupled application_comm application_rank
             application_size number_iterations number_grid_points
             number_particles
    end
  end.

End scripts.

(** ** Running a universe of processes

    A world lists the processes of the universe by world rank.  A run goes
    by rounds of matching calls: a call gets its reply in the round in
    which every participant has entered it with arguments that fit.  A
    call whose partners do not all enter it, or whose arguments MPI
    rejects, gets no reply here: what becomes of it (an MPI error, a
    buffered completion, a wait without end) is up to the MPI library and
    is not described. *)

Section semantics.
Context `{MPI.Constants} {A : Type}.
Implicit Types (w : list (proc A)) (p : proc A) (q : nat).

Definition finished p : bool :=
  match p with Ret _ | Exit _ => true | _ => false end.

(** The process has entered the world broadcast naming [root]. *)
Definition in_world_bcast (root : Z) p : Prop :=
  match p with World_bcast _ root' _ => root' = root | _ => False end.

(** Rank [q] has entered [Create_intercomm] with these arguments. *)
Definition in_create_intercomm (local_comm : MPI.Comm)
    (local_leader remote_leader : Z) w q : Prop :=
  match w !! q with
  | Some (Create_intercomm c l r _) =>
      c = local_comm ∧ l = local_leader ∧ r = remote_leader
  | _ => False
  end.

(** Rank [q] has entered a broadcast, or an all-gather, on [intercomm]. *)
Definition in_intercomm_bcast (intercomm : MPI.Intercomm) w q : Prop :=
  match w !! q with
  | Some (Intercomm_bcast i _ _ _) => i = intercomm
  | _ => False
  end.

Definition in_Allgather (intercomm : MPI.Intercomm) w q : Prop :=
  match w !! q with
  | Some (Allgather i _ _ _) => i = intercomm
  | _ => False
  end.

#[global] Instance in_world_bcast_dec root p :
  Decision (in_world_bcast root p).
Proof. destruct p; simpl; apply _. Defined.
#[global] Instance in_create_intercomm_dec c l r w q :
  Decision (in_create_intercomm c l r w q).
Proof.
  unfold in_create_intercomm. destruct (w !! q) as [[]|]; apply _.
Defined.
#[global] Instance in_intercomm_bcast_dec i w q :
  Decision (in_intercomm_bcast i w q).
Proof.
  unfold in_intercomm_bcast. destruct (w !! q) as [[]|]; apply _.
Defined.
#[global] Instance in_Allgather_dec i w q : Decision (in_Allgather i w q).
Proof. unfold in_Allgather. destruct (w !! q) as [[]|]; apply _. Defined.

Definition in_Barrier (intercomm : MPI.Intercomm) w q : Prop :=
  match w !! q with
  | Some (Barrier i _) => i = intercomm
  | _ => False
  end.

#[global] Instance in_Barrier_dec i w q : Decision (in_Barrier i w q).
Proof. unfold in_Barrier. destruct (w !! q) as [[]|]; apply _. Defined.

(** Every member of both groups of [intercomm] satisfies [entered], the
    remote members on their own view of the intercommunicator. *)
Definition all_entered
    (entered : MPI.Intercomm → list (proc A) → nat → Prop)
    (intercomm : MPI.Intercomm) w : Prop :=
  Forall (entered intercomm w) (MPI.local_group intercomm) ∧
  Forall (entered (MPI.mirror intercomm) w) (MPI.remote_group intercomm).

(** [comm.bcast(obj, root)] on the world communicator: the object passed
    by [root] is returned on every rank. *)
Definition World_bcast_result w (root : Z) : option Z :=
  guard (Forall (in_world_bcast root) w);;
  guard (0 ≤ root);;
  sender ← w !! Z.to_nat root;
  match sender with World_bcast obj _ _ => Some obj | _ => None end.

(** [local_comm.Create_intercomm(local_leader, world_comm, remote_leader)]:
    the remote group is the communicator on which the remote leader made
    the matching call. *)
Definition Create_intercomm_result w (local_comm : MPI.Comm)
    (local_leader remote_leader : Z) : option MPI.Intercomm :=
  guard (0 ≤ local_leader ∧ 0 ≤ remote_leader);;
  my_leader ← MPI.group local_comm !! Z.to_nat local_leader;
  peer ← w !! Z.to_nat remote_leader;
  match peer with
  | Create_intercomm remote_comm l r _ =>
      guard (0 ≤ l ∧
             MPI.group remote_comm !! Z.to_nat l
               = Some (Z.to_nat remote_leader) ∧
             r = Z.of_nat my_leader);;
      guard (Forall (λ q, q ∉ MPI.group remote_comm)
               (MPI.group local_comm));;
      guard (Forall (in_create_intercomm local_comm local_leader
                       remote_leader w) (MPI.group local_comm) ∧
             Forall (in_create_intercomm remote_comm l r w)
               (MPI.group remote_comm));;
      Some {| MPI.local_group := MPI.group local_comm;
              MPI.remote_group := MPI.group remote_comm |}
  | _ => None
  end.

(** [intercomm.bcast(obj, root)]: [None] on the ranks that pass
    [MPI.ROOT] or [MPI.PROC_NULL]; on the others, the object passed by
    rank [root] of the remote group, which must have passed [MPI.ROOT]. *)
Definition Intercomm_bcast_result w (intercomm : MPI.Intercomm)
    (root : Z) : option (option Z) :=
  guard (all_entered in_intercomm_bcast intercomm w);;
  if decide (root = MPI.PROC_NULL) then Some None
  else if decide (root = MPI.ROOT) then Some None
  else
    guard (0 ≤ root);;
    sender ← MPI.remote_group intercomm !! Z.to_nat root;
    peer ← w !! sender;
    match peer with
    | Intercomm_bcast _ obj root' _ =>
        guard (root' = MPI.ROOT);; Some obj
    | _ => None
    end.

Definition Allgather_sendbuf w q : option (list Z) :=
  peer ← w !! q;
  match peer with Allgather _ sendbuf _ _ => Some sendbuf | _ => None end.

(** [intercomm.Allgather(sendbuf, recvbuf)]: the receive buffer is cut in
    as many equal blocks as the remote group has ranks and block [i] is
    filled with the send buffer of remote rank [i], which must have that
    size. *)
Definition Allgather_result w (intercomm : MPI.Intercomm)
    (recvbuf : list Z) : option (list Z) :=
  guard (all_entered in_Allgather intercomm w);;
  let remote_size := length (MPI.remote_group intercomm) in
  let recvcount := (length recvbuf `div` remote_size)%nat in
  guard (length recvbuf = (recvcount * remote_size)%nat);;
  blocks ← mapM (Allgather_sendbuf w) (MPI.remote_group intercomm);
  guard (Forall (λ block, length block = recvcount) blocks);;
  Some (concat blocks).

(** [intercomm.Barrier()]: every rank of both groups has entered it. *)
Definition Barrier_result w (intercomm : MPI.Intercomm) : option unit :=
  guard (all_entered in_Barrier intercomm w);;
  Some ().

(** What becomes of process [p] in one round of the world [w]. *)
Definition reply w p : option (proc A) :=
  match p with
  | Ret a => Some (Ret a)
  | Exit status => Some (Exit status)
  | World_bcast obj root k => k <$> World_bcast_result w root
  | Create_intercomm local_comm local_leader remote_leader k =>
      k <$> Create_intercomm_result w local_comm local_leader
              remote_leader
  | Intercomm_bcast intercomm obj root k =>
      k <$> Intercomm_bcast_result w intercomm root
  | Allgather intercomm sendbuf recvbuf k =>
      k <$> Allgather_result w intercomm recvbuf
  | Barrier intercomm k => k <$> Barrier_result w intercomm
  end.

(** One round: every process still running completes its pending call.
    [None] when all processes are finished, or when a pending call gets
    no reply. *)
Definition step w : option (list (proc A)) :=
  if forallb finished w then None else mapM (reply w) w.

(** The worlds a run goes through, the first one included. *)
Fixpoint history (fuel : nat) w : list (list (proc A)) :=
  w :: match fuel with
       | O => []
       | S fuel =>
           match step w with
           | Some w' => history fuel w'
           | None => []
           end
       end.

(** [rounds] rounds in a row. *)
Fixpoint run (rounds : nat) w : option (list (proc A)) :=
  match rounds with
  | O => Some w
  | S rounds => w' ← step w; run rounds w'
  end.

(** The exit status of a finished process. *)
Definition exit_status p : option Z :=
  match p with Ret _ => Some 0 | Exit status => Some status | _ => None end.

End semantics.

Definition exit_statuses {A : Type} (w : list (proc A))
    : list (option Z) :=
  exit_status <$> w.

(** ** Universes *)

(** How a rank was started: the program, [sys.argv[0]] and the integer
    arguments (the delay only feeds [time.sleep]). *)
Inductive program : Type :=
  | solver_py (argv0 : string) (number_iterations number_grid_points : Z)
  | tracker_py (argv0 : string)
      (number_iterations number_grid_points number_particles : Z).

Definition argv0_of (prog : program) : string :=
  match prog with solver_py a _ _ => a | tracker_py a _ _ _ => a end.

Section launch.
Context `{MPI.Constants}.

Definition start (universe : list program) (world_rank : nat)
    (prog : program) : proc fields :=
  match prog with
  | solver_py _ number_iterations number_grid_points =>
      solver (argv0_of <$> universe) world_rank number_iterations
        number_grid_points
  | tracker_py _ number_iterations number_grid_points number_particles =>
      tracker (argv0_of <$> universe) world_rank number_iterations
        number_grid_points number_particles
  end.

Definition launch (universe : list program) : list (proc fields) :=
  imap (start universe) universe.

End launch.

(** A solver group on the first [solver_size] ranks followed by a tracker
    group on the next [tracker_size] ranks. *)
Definition coupled (solver_size tracker_size : nat)
    (solver_program tracker_program : program) : list program :=
  replicate solver_size solver_program
  ++ replicate tracker_size tracker_program.

(** The constants of MPICH and of Open MPI. *)
Definition MPICH : MPI.Constants.
Proof. refine {| MPI.ROOT := -3; MPI.PROC_NULL := -1 |}; lia. Defined.
Definition Open_MPI : MPI.Constants.
Proof. refine {| MPI.ROOT := -4; MPI.PROC_NULL := -2 |}; lia. Defined.

Definition S_T_universe : list string := ["S"; "S"; "T"; "T"]%string.

(** The scenario of a channel between a sending group of 3 ranks (world
    ranks 0-2) and a receiving group of 2 ranks (world ranks 3-4), every
    rank calling [intercomm_broadcast] with [local_root = 1]. *)
Definition sending_3 : MPI.Intercomm :=
  {| MPI.local_group := [0; 1; 2]%nat; MPI.remote_group := [3; 4]%nat |}.

Definition sending_3_receiving_2 `{MPI.Constants} (send_value : Z)
    : list (proc (option Z)) :=
  [ intercomm_broadcast sending_3 send_value 0 1 true;
    intercomm_broadcast sending_3 send_value 1 1 true;
    intercomm_broadcast sending_3 send_value 2 1 true;
    intercomm_broadcast (MPI.mirror sending_3) 0 0 1 false;
    intercomm_broadcast (MPI.mirror sending_3) 0 1 1 false ].

Section scenario.
Context `{MPI.Constants}.
Implicit Types (w : list (proc (option Z))).

(** Both groups have entered [intercomm_broadcast] on [intercomm], the
    local group sending. *)
Definition broadcasting w intercomm (send_value unused : nat → Z)
    (local_root : Z) : Prop :=
  (∀ i q, MPI.local_group intercomm !! i = Some q →
     w !! q = Some (intercomm_broadcast intercomm (send_value i)
                      (Z.of_nat i) local_root true)) ∧
  (∀ j q, MPI.remote_group intercomm !! j = Some q →
     w !! q = Some (intercomm_broadcast (MPI.mirror intercomm) (unused j)
                      (Z.of_nat j) local_root false)).

End scenario.

(** ** Coupled runs: the groups, the channel and the worlds of the loop *)

(** The communicators [partition_by_string] returns in a [coupled]
    universe, and the channel as the solver sees it (the tracker sees its
    [MPI.mirror]). *)
Definition solver_group (solver_size : nat) : MPI.Comm :=
  {| MPI.context := 1; MPI.group := seq 0 solver_size |}.
Definition tracker_group (solver_size tracker_size : nat) : MPI.Comm :=
  {| MPI.context := 1; MPI.group := seq solver_size tracker_size |}.
Definition solver_channel (solver_size tracker_size : nat)
    : MPI.Intercomm :=
  {| MPI.local_group := seq 0 solver_size;
     MPI.remote_group := seq solver_size tracker_size |}.

(** A world given rank by rank; [by_role] picks the solver's state on the
    first [solver_size] ranks and the tracker's, by local rank, on the
    others. *)
Definition world_of {A : Type} (size : nat) (state : nat → proc A)
    : list (proc A) :=
  state <$> seq 0 size.
Definition by_role {A : Type} (solver_size : nat)
    (solver_state tracker_state : nat → A) (world_rank : nat) : A :=
  if decide (world_rank < solver_size)%nat then solver_state world_rank
  else tracker_state (world_rank - solver_size)%nat.

(** The full field of one component: the slices of the solver ranks one
    after the other, in rank order. *)
Definition full_field (solver_size : nat) (component : fields → list Z)
    (slices : nat → fields) : list Z :=
  concat ((λ rank, component (slices rank)) <$> seq 0 solver_size).

Definition gathered (solver_size : nat) (slices : nat → fields) : fields :=
  {| velocity_x := full_field solver_size velocity_x slices;
     velocity_y := full_field solver_size velocity_y slices;
     velocity_z := full_field solver_size velocity_z slices |}.

(** The three arrays of a process right after their allocation. *)
Definition allocated (velocity : list Z) : fields :=
  {| velocity_x := velocity; velocity_y := velocity;
     velocity_z := velocity |}.

(** The pending all-gather of a process: its send and receive buffers. *)
Definition pending_Allgather {A : Type} (p : proc A)
    : option (list Z * list Z) :=
  match p with
  | Allgather _ sendbuf recvbuf _ => Some (sendbuf, recvbuf)
  | _ => None
  end.



Section loop_worlds.
Context `{MPI.Constants}.

(** The world at the top of the loop with [remaining] iterations to go:
    solver rank [r] holds [slices r], tracker rank [j] holds [buffers j]. *)
Definition iteration_world (solver_size tracker_size : nat)
    (remaining : nat) (slices buffers : nat → fields)
    : list (proc fields) :=
  world_of (solver_size + tracker_size)
    (by_role solver_size
       (λ r, solver_loop (Some (solver_channel solver_size tracker_size))
               (slices r) remaining)
       (λ j, tracker_loop
               (MPI.mirror (solver_channel solver_size tracker_size))
               (buffers j) remaining)).

(** The same with iteration counts of their own for the two roles. *)
Definition loop_world (solver_size tracker_size : nat)
    (solver_remaining tracker_remaining : nat)
    (slices buffers : nat → fields) : list (proc fields) :=
  world_of (solver_size + tracker_size)
    (by_role solver_size
       (λ r, solver_loop (Some (solver_channel solver_size tracker_size))
               (slices r) solver_remaining)
       (λ j, tracker_loop
               (MPI.mirror (solver_channel solver_size tracker_size))
               (buffers j) tracker_remaining)).

(** The worlds of the handshake of a [coupled] universe of [solver_size]
    solver ranks and [tracker_size] tracker ranks: after the world
    broadcast, after the creation of the channel, and at the start of the
    loop. *)
Definition world_after_startup (solver_size tracker_size : nat)
    (solver_iterations solver_grid_points : Z)
    (tracker_iterations tracker_grid_points number_particles : Z)
    : list (proc fields) :=
  world_of (solver_size + tracker_size)
    (by_role solver_size
       (λ r, solver_started (solver_group solver_size)
               (solver_size + tracker_size) (Z.of_nat r)
               (Z.of_nat solver_size) solver_iterations solver_grid_points)
       (λ j, tracker_handshake (tracker_group solver_size tracker_size)
               (Z.of_nat j) (Z.of_nat tracker_size) tracker_iterations
               tracker_grid_points number_particles)).

Definition world_at_confirmation (solver_size tracker_size : nat)
    (solver_iterations solver_grid_points : Z)
    (tracker_iterations tracker_grid_points number_particles : Z)
    : list (proc fields) :=
  world_of (solver_size + tracker_size)
    (by_role solver_size
       (λ r, intercomm ← solver_confirm
                           (solver_channel solver_size tracker_size)
                           (Z.of_nat r);
             solver_run intercomm (Z.of_nat r) (Z.of_nat solver_size)
               solver_iterations solver_grid_points)
       (λ j, tracker_report
               (MPI.mirror (solver_channel solver_size tracker_size))
               (configure_tracker (Z.of_nat j) (Z.of_nat tracker_size)
                  number_particles)
               (Z.of_nat j) tracker_iterations tracker_grid_points)).

Definition world_at_loop (solver_size tracker_size : nat)
    (solver_iterations solver_grid_points : Z)
    (tracker_iterations tracker_grid_points : Z) : list (proc fields) :=
  world_of (solver_size + tracker_size)
    (by_role solver_size
       (λ r, solver_run (Some (solver_channel solver_size tracker_size))
               (Z.of_nat r) (Z.of_nat solver_size) solver_iterations
               solver_grid_points)
       (λ j, tracker_run
               (MPI.mirror (solver_channel solver_size tracker_size))
               tracker_iterations tracker_grid_points)).

End loop_worlds.

(** ** extended-collectives.py *)

(** The half of the world a rank is put in. *)
Definition group_index (world_rank world_size : nat) : nat :=
  if decide (world_rank < world_size `div` 2)%nat then 0%nat else 1%nat.

(** [our_comm = world_comm.Split( group_index, key=world_rank )], as
    returned to [world_rank]. *)
Definition our_comm (world_size world_rank : nat) : option MPI.Comm :=
  MPI.Split (MPI.COMM_WORLD world_size)
    ((λ q, (group_index q world_size, q)) <$> seq 0 world_size) world_rank.

Section extended_collectives.
Context `{MPI.Constants}.

(** [demonstrate_broadcast]: the three broadcasts, each after a barrier
    and followed by two, in the order of the source.  The result lists
    the three values the rank prints; [world_rank] only appears in the
    output, and the banners are left out. *)
Definition demonstrate_broadcast (intercomm : MPI.Intercomm)
    (local_rank : Z) (world_rank : nat) (group_index : nat)
    : proc (list (option Z)) :=
  let local_root := 0 in
  let sending_group := 0%nat in
  _ ← intercomm_Barrier intercomm;
  value1 ← intercomm_broadcast intercomm (999 + local_root) local_rank
             local_root (bool_decide (group_index = sending_group));
  _ ← intercomm_Barrier intercomm;
  _ ← intercomm_Barrier intercomm;
  let local_root := 0 in
  let sending_group := 1%nat in
  _ ← intercomm_Barrier intercomm;
  value2 ← intercomm_broadcast intercomm (999 + local_root) local_rank
             local_root (bool_decide (group_index = sending_group));
  _ ← intercomm_Barrier intercomm;
  _ ← intercomm_Barrier intercomm;
  let local_root := 1 in
  let sending_group := 0%nat in
  _ ← intercomm_Barrier intercomm;
  value3 ← intercomm_broadcast intercomm (999 + local_root) local_rank
             local_root (bool_decide (group_index = sending_group));
  _ ← intercomm_Barrier intercomm;
  _ ← intercomm_Barrier intercomm;
  mret [value1; value2; value3].

(** The script: split the world in two halves, join them by an
    intercommunicator and run the demonstration. *)
Definition extended_collectives (world_size world_rank : nat)
    : proc (list (option Z)) :=
  let group_index := group_index world_rank world_size in
  match our_comm world_size world_rank with
  | None => uncaught_exception
  | Some our_comm =>
      match MPI.Get_rank our_comm world_rank with
      | None => uncaught_exception
      | Some local_rank =>
          inter_comm ←
            (if decide (group_index = 0%nat)
             then create_intercomm our_comm 0
                    (Z.of_nat (world_size `div` 2))
             else create_intercomm our_comm 0 0);
          demonstrate_broadcast inter_comm (Z.of_nat local_rank)
            world_rank group_index
      end
  end.

End extended_collectives.

(** * Properties *)

(** ** Group partitioning *)

Section partition.
Implicit Types (universe : list string) (calls : list (nat * nat)).

Lemma index_Some (l : list string) x i :
  index l x = Some i ↔
  l !! i = Some x ∧ ∀ j y, l !! j = Some y → (j < i)%nat → y ≠ x.
Proof.
  unfold index. split.
  - intros ([i' y] & Hfind & ->)%fmap_Some.
    apply list_find_Some in Hfind as (Hi & Hy & Hmin). naive_solver.
  - intros [Hi Hmin]. apply fmap_Some. exists (i, x). split; [|done].
    apply list_find_Some. naive_solver.
Qed.

Lemma index_is_Some (l : list string) x : x ∈ l → is_Some (index l x).
Proof.
  intros Hx. unfold index. apply fmap_is_Some.
  by apply (list_find_elem_of (eq x) l x).
Qed.

(** Every rank finds its own label. *)
Lemma color_index_is_Some universe rank :
  (rank < length universe)%nat → is_Some (color_index universe rank).
Proof.
  intros [c Hc]%lookup_lt_is_Some. unfold color_index. rewrite Hc. simpl.
  apply index_is_Some. unfold MPI.allgather. by eapply list_elem_of_lookup_2.
Qed.

Lemma color_index_Some universe rank i :
  color_index universe rank = Some i ↔
  ∃ c, universe !! rank = Some c ∧ universe !! i = Some c ∧
       ∀ j y, universe !! j = Some y → (j < i)%nat → y ≠ c.
Proof.
  unfold color_index, MPI.allgather. split.
  - intros (c & Hc & Hi)%bind_Some. apply index_Some in Hi as [? ?]. eauto.
  - intros (c & Hc & Hi). rewrite Hc. simpl. by apply index_Some.
Qed.

(** Equal labels, equal group ids, and different labels, different ids. *)
Lemma color_index_eq_iff universe r1 r2 c1 c2 :
  universe !! r1 = Some c1 → universe !! r2 = Some c2 →
  color_index universe r1 = color_index universe r2 ↔ c1 = c2.
Proof.
  intros H1 H2.
  destruct (color_index_is_Some universe r1) as [i1 Hi1];
    [by eapply lookup_lt_Some|].
  split.
  - intros Heq. pose proof Hi1 as Hi2. rewrite Heq in Hi2.
    apply color_index_Some in Hi1 as (c & ? & ? & _).
    apply color_index_Some in Hi2 as (c' & ? & ? & _). congruence.
  - intros <-. unfold color_index. by rewrite H1, H2.
Qed.

Lemma filter_ext_elem_of (P Q : nat → Prop) `{∀ x, Decision (P x)}
    `{∀ x, Decision (Q x)} (l : list nat) :
  (∀ x, x ∈ l → P x ↔ Q x) → filter P l = filter Q l.
Proof.
  induction l as [|x l IH]; intros HPQ; [done|].
  rewrite !filter_cons.
  rewrite IH by (intros y Hy; apply HPQ; by right).
  pose proof (HPQ x ltac:(by left)) as Hx. clear HPQ IH.
  repeat case_decide; tauto.
Qed.

Lemma filter_all (P : nat → Prop) `{∀ x, Decision (P x)} (l : list nat) :
  Forall P l → filter P l = l.
Proof.
  induction 1 as [|x l Hx _ IH]; [done|].
  by rewrite filter_cons_True, IH.
Qed.

Lemma filter_none (P : nat → Prop) `{∀ x, Decision (P x)} (l : list nat) :
  Forall (λ x, ¬ P x) l → filter P l = [].
Proof.
  induction 1 as [|x l Hx _ IH]; [done|].
  by rewrite filter_cons_False.
Qed.

Lemma StronglySorted_lt_seq j n : StronglySorted lt (seq j n).
Proof.
  revert j. induction n as [|n IH]; intros j; simpl; constructor; [done|].
  apply Forall_forall. intros q ?%elem_of_seq. lia.
Qed.

Lemma key_le_transitive calls : Transitive (MPI.key_le calls).
Proof. unfold MPI.key_le. intros q1 q2 q3. lia. Qed.
Lemma key_le_antisymm calls : AntiSymm (=) (MPI.key_le calls).
Proof. unfold MPI.key_le. intros q1 q2. lia. Qed.
Lemma key_le_total calls : Total (MPI.key_le calls).
Proof. unfold MPI.key_le. intros q1 q2. lia. Qed.

(** With the old rank as key, ascending old ranks are in key order. *)
Lemma Sorted_key_le_filter_seq calls (P : nat → Prop)
    `{∀ x, Decision (P x)} :
  (∀ q, (q < length calls)%nat → MPI.key_of calls q = q) →
  Sorted (MPI.key_le calls) (filter P (seq 0 (length calls))).
Proof.
  intros Hkey. apply StronglySorted_Sorted.
  assert (Hlt : Forall (λ q, (q < length calls)%nat)
                  (seq 0 (length calls))).
  { apply Forall_forall. intros q ?%elem_of_seq. lia. }
  assert (Hseq : StronglySorted lt (seq 0 (length calls))).
  { apply StronglySorted_lt_seq. }
  revert Hlt Hseq. generalize (seq 0 (length calls)).
  induction l as [|x l IH]; intros Hlt Hsorted; [constructor|].
  apply Forall_cons in Hlt as [Hx Hl].
  apply StronglySorted_inv in Hsorted as [Hsorted Hall].
  rewrite filter_cons. case_decide; [|by apply IH].
  constructor; [by apply IH|].
  apply Forall_forall. intros y [_ Hy]%list_elem_of_filter.
  rewrite Forall_forall in Hall, Hl.
  pose proof (Hall y Hy). pose proof (Hl y Hy).
  left. rewrite !Hkey by done. done.
Qed.

Lemma Split_key_rank intracomm calls rank color :
  (∀ q, (q < length calls)%nat → MPI.key_of calls q = q) →
  MPI.color_of calls rank = Some color →
  MPI.Split intracomm calls rank
  = Some {| MPI.context := S (MPI.context intracomm);
            MPI.group := filter (λ q, MPI.color_of calls q = Some color)
                           (seq 0 (length calls)) |}.
Proof.
  intros Hkey Hcolor. unfold MPI.Split. rewrite Hcolor. simpl.
  do 2 f_equal.
  pose proof (key_le_transitive calls). pose proof (key_le_antisymm calls).
  pose proof (key_le_total calls).
  apply (Sorted_unique (MPI.key_le calls)).
  - apply Sorted_merge_sort, _.
  - by apply Sorted_key_le_filter_seq.
  - apply merge_sort_Permutation.
Qed.

(** The calls to [Split] made by the ranks of a universe. *)
Lemma split_calls universe :
  ∃ calls,
    mapM (split_call universe) (seq 0 (length universe)) = Some calls ∧
    length calls = length universe ∧
    ∀ q, (q < length universe)%nat →
         calls !! q = (λ i, (i, q)) <$> color_index universe q.
Proof.
  destruct (mapM_is_Some_2 (split_call universe)
              (seq 0 (length universe))) as [calls Hcalls].
  { apply Forall_forall. intros q ?%elem_of_seq. simpl.
    unfold split_call.
    destruct (color_index_is_Some universe q) as [i ->]; [lia|].
    by eexists. }
  exists calls. split; [done|].
  apply mapM_Some_1 in Hcalls.
  pose proof (Forall2_length _ _ _ Hcalls) as Hlen.
  rewrite length_seq in Hlen. split; [done|].
  intros q Hq.
  destruct (Forall2_lookup_l _ _ _ q q Hcalls) as (call & Hcall & Hsplit).
  { by apply lookup_seq_lt. }
  rewrite Hcall. unfold split_call in Hsplit.
  destruct (color_index universe q); simplify_eq/=; done.
Qed.

(** The communicator [partition_by_string] returns to a rank: the ranks
    carrying its label, in ascending order. *)
Lemma partition_by_string_Some universe rank c :
  universe !! rank = Some c →
  partition_by_string universe rank
  = Some {| MPI.context := 1;
            MPI.group := filter (λ q, universe !! q = Some c)
                           (seq 0 (length universe)) |}.
Proof.
  intros Hc. pose proof (lookup_lt_Some _ _ _ Hc) as Hrank.
  destruct (split_calls universe) as (calls & Hcalls & Hlen & Hlookup).
  destruct (color_index_is_Some universe rank) as [i Hi]; [done|].
  unfold partition_by_string. rewrite Hcalls. simpl.
  rewrite (Split_key_rank _ calls rank i).
  - simpl. do 2 f_equal. rewrite Hlen.
    apply filter_ext_elem_of. intros q ?%elem_of_seq.
    unfold MPI.color_of. rewrite Hlookup by lia.
    destruct (lookup_lt_is_Some_2 universe q) as [c' Hc']; [lia|].
    destruct (color_index_is_Some universe q) as [i' Hi']; [lia|].
    rewrite Hi', Hc'. simpl.
    pose proof (color_index_eq_iff universe q rank c' c Hc' Hc) as Hiff.
    rewrite Hi, Hi' in Hiff. rewrite Hiff. split; congruence.
  - intros q Hq. unfold MPI.key_of. rewrite Hlookup by lia.
    destruct (color_index_is_Some universe q) as [i' ->]; [lia|]. done.
  - unfold MPI.color_of. rewrite Hlookup, Hi by lia. done.
Qed.

(** The rank of a member in a group made of the ascending ranks that
    satisfy [P]: the number of members below it. *)
Lemma Get_rank_filter_seq (P : nat → Prop) `{∀ x, Decision (P x)}
    context n rank :
  (rank < n)%nat → P rank →
  MPI.Get_rank {| MPI.context := context;
                  MPI.group := filter P (seq 0 n) |} rank
  = Some (length (filter P (seq 0 rank))).
Proof.
  intros Hrank HP. unfold MPI.Get_rank. simpl.
  replace n with (rank + S (n - S rank))%nat by lia.
  rewrite seq_app, filter_app. simpl.
  rewrite filter_cons_True by done.
  apply fmap_Some. exists (length (filter P (seq 0 rank)), rank).
  split; [|done]. apply list_find_Some. split_and!; [|done|].
  - by rewrite lookup_app_r, Nat.sub_diag.
  - intros j y Hy Hj. rewrite lookup_app_l in Hy by done.
    apply list_elem_of_lookup_2, list_elem_of_filter in Hy as [_ Hy].
    apply elem_of_seq in Hy. lia.
Qed.

End partition.

(** C1: the group id a process hands to [Split] is the index of the first
    rank, in ascending rank order, that carries the process's own label;
    processes with the same label compute the same group id and processes
    with different labels compute different ones. *)
Theorem partition_group_id_first_occurrence
    (universe : list string) (r1 r2 : nat) (c1 c2 : string) :
  universe !! r1 = Some c1 → universe !! r2 = Some c2 →
  (∃ group_id,
      split_call universe r1 = Some (group_id, r1) ∧
      universe !! group_id = Some c1 ∧
      ∀ j c, (j < group_id)%nat → universe !! j = Some c → c ≠ c1) ∧
  (c1 = c2 → color_index universe r1 = color_index universe r2) ∧
  (c1 ≠ c2 → color_index universe r1 ≠ color_index universe r2).
Proof.
  intros H1 H2. split_and!.
  - destruct (color_index_is_Some universe r1) as [i Hi];
      [by eapply lookup_lt_Some|].
    exists i. unfold split_call. rewrite Hi. split; [done|].
    apply color_index_Some in Hi as (c & ? & ? & Hmin).
    simplify_eq. split; [done|]. intros j c' ? ?. by eapply Hmin.
  - intros. by eapply color_index_eq_iff.
  - intros Hne Heq. apply Hne. by eapply color_index_eq_iff.
Qed.

Lemma partition_group_id_first_occurrence_witness :
  (∃ group_id,
      split_call S_T_universe 3 = Some (group_id, 3%nat) ∧
      S_T_universe !! group_id = Some "T"%string ∧
      ∀ j c, (j < group_id)%nat → S_T_universe !! j = Some c →
             c ≠ "T"%string) ∧
  ("T"%string = "S"%string →
   color_index S_T_universe 3 = color_index S_T_universe 1) ∧
  ("T"%string ≠ "S"%string →
   color_index S_T_universe 3 ≠ color_index S_T_universe 1).
Proof.
  apply (partition_group_id_first_occurrence S_T_universe 3 1);
    reflexivity.
Defined.

(** C9, refuted as stated: with labels [S, S, T, T] the ranks 2 and 3 are
    not group 1; their group id is 2, the first rank labelled T. *)
Lemma partition_S_T_group_ids_counterexample :
  ¬ (split_call S_T_universe 2 = Some (1%nat, 2%nat) ∧
     split_call S_T_universe 3 = Some (1%nat, 3%nat)).
Proof. intros [Hrank2 _]. vm_compute in Hrank2. discriminate. Qed.

(** C9, amended: [partition_by_string] gives every process the group of
    exactly the ranks that carry its label, itself included, listed in
    ascending world rank, its local rank being the number of lower ranks
    with that label; two processes get the same group when their labels
    agree and disjoint groups otherwise.  With labels [S, S, T, T] the
    groups are {0,1} and {2,3}, both with local ranks 0 and 1, and their
    group ids are 0 and 2. *)
Theorem partition_by_string_partition :
  (∀ (universe : list string) (rank : nat) (c : string),
     universe !! rank = Some c →
     ∃ comm,
       partition_by_string universe rank = Some comm ∧
       (∀ q, q ∈ MPI.group comm ↔ universe !! q = Some c) ∧
       rank ∈ MPI.group comm ∧
       StronglySorted lt (MPI.group comm) ∧
       MPI.Get_rank comm rank
       = Some (length (filter (λ q, universe !! q = Some c)
                         (seq 0 rank))) ∧
       ∀ rank' c' comm',
         universe !! rank' = Some c' →
         partition_by_string universe rank' = Some comm' →
         (c' = c → comm' = comm) ∧
         (c' ≠ c → ∀ q, q ∈ MPI.group comm → q ∉ MPI.group comm')) ∧
  (let S_group := {| MPI.context := 1; MPI.group := [0; 1]%nat |} in
   let T_group := {| MPI.context := 1; MPI.group := [2; 3]%nat |} in
   partition_by_string S_T_universe 0 = Some S_group ∧
   partition_by_string S_T_universe 1 = Some S_group ∧
   partition_by_string S_T_universe 2 = Some T_group ∧
   partition_by_string S_T_universe 3 = Some T_group ∧
   MPI.Get_rank S_group 0 = Some 0%nat ∧
   MPI.Get_rank S_group 1 = Some 1%nat ∧
   MPI.Get_rank T_group 2 = Some 0%nat ∧
   MPI.Get_rank T_group 3 = Some 1%nat ∧
   color_index S_T_universe <$> [0; 1; 2; 3]%nat
   = [Some 0; Some 0; Some 2; Some 2]%nat).
Proof.
  split; [|by vm_compute].
  intros universe rank c Hc.
  pose proof (lookup_lt_Some _ _ _ Hc) as Hrank.
  assert (Hmem : ∀ c' q,
    q ∈ filter (λ q, universe !! q = Some c') (seq 0 (length universe))
    ↔ universe !! q = Some c').
  { intros c' q. rewrite list_elem_of_filter, elem_of_seq.
    split; [tauto|]. intros Hq. pose proof (lookup_lt_Some _ _ _ Hq).
    split; [done|lia]. }
  eexists. split; [by apply partition_by_string_Some|]. simpl.
  split_and!.
  - apply Hmem.
  - by apply Hmem.
  - clear. generalize (StronglySorted_lt_seq 0 (length universe)).
    generalize (seq 0 (length universe)).
    induction l as [|x l IH]; intros Hsorted; [constructor|].
    apply StronglySorted_inv in Hsorted as [Hsorted Hall].
    rewrite filter_cons. case_decide; [|by apply IH].
    constructor; [by apply IH|].
    apply Forall_forall. intros y [_ Hy]%list_elem_of_filter.
    rewrite Forall_forall in Hall. by apply Hall.
  - by apply (Get_rank_filter_seq (λ q, universe !! q = Some c)).
  - intros rank' c' comm' Hc' Hcomm'.
    rewrite (partition_by_string_Some _ _ _ Hc') in Hcomm'.
    simplify_eq. split; [by intros ->|]. simpl.
    intros Hne q Hq%Hmem Hq'%Hmem. congruence.
Qed.

Lemma partition_by_string_partition_witness :
  ∃ comm,
    partition_by_string S_T_universe 2 = Some comm ∧
    2%nat ∈ MPI.group comm ∧
    MPI.Get_rank comm 2 = Some 0%nat.
Proof.
  destruct (proj1 partition_by_string_partition S_T_universe 2%nat
              "T"%string eq_refl)
    as (comm & Hcomm & _ & Hin & _ & Hrank & _).
  exists comm. split_and!; [exact Hcomm|exact Hin|exact Hrank].
Defined.

(** ** The directed broadcast *)

Section broadcast.
Context `{MPI.Constants}.

Lemma intercomm_broadcast_unfold intercomm send_value local_rank
    local_root sending_flag :
  intercomm_broadcast intercomm send_value local_rank local_root
    sending_flag
  = Intercomm_bcast intercomm
      (intercomm_broadcast_args send_value local_rank local_root
         sending_flag).1
      (intercomm_broadcast_args send_value local_rank local_root
         sending_flag).2
      Ret.
Proof.
  unfold intercomm_broadcast.
  by destruct (intercomm_broadcast_args _ _ _ _).
Qed.

Lemma sending_args_root send_value local_root :
  intercomm_broadcast_args send_value local_root local_root true
  = (Some send_value, MPI.ROOT).
Proof. unfold intercomm_broadcast_args. by rewrite decide_True. Qed.

Lemma sending_args_passive send_value local_rank local_root :
  local_rank ≠ local_root →
  intercomm_broadcast_args send_value local_rank local_root true
  = (None, MPI.PROC_NULL).
Proof. intros. unfold intercomm_broadcast_args. by rewrite decide_False. Qed.

Lemma mirror_mirror intercomm : MPI.mirror (MPI.mirror intercomm) = intercomm.
Proof. by destruct intercomm. Qed.

(** A rank that passes [MPI.ROOT] or [MPI.PROC_NULL] gets [None]. *)
Lemma Intercomm_bcast_result_sending {A} (w : list (proc A)) intercomm
    root :
  all_entered in_intercomm_bcast intercomm w →
  root = MPI.ROOT ∨ root = MPI.PROC_NULL →
  Intercomm_bcast_result w intercomm root = Some None.
Proof.
  intros Hall Hroot. unfold Intercomm_bcast_result.
  rewrite option_guard_True by done.
  destruct Hroot as [-> | ->].
  - rewrite decide_False by apply MPI.ROOT_PROC_NULL.
    by rewrite decide_True.
  - by rewrite decide_True.
Qed.

(** A rank that names a remote rank which passed [MPI.ROOT] gets the
    object of that rank. *)
Lemma Intercomm_bcast_result_receiving {A} (w : list (proc A)) intercomm
    root sender i obj (k : option Z → proc A) :
  all_entered in_intercomm_bcast intercomm w →
  0 ≤ root →
  MPI.remote_group intercomm !! Z.to_nat root = Some sender →
  w !! sender = Some (Intercomm_bcast i obj MPI.ROOT k) →
  Intercomm_bcast_result w intercomm root = Some obj.
Proof.
  intros Hall Hroot Hsender Hpeer. unfold Intercomm_bcast_result.
  pose proof MPI.ROOT_negative. pose proof MPI.PROC_NULL_negative.
  rewrite option_guard_True by done.
  rewrite !decide_False by lia.
  rewrite option_guard_True by done.
  rewrite Hsender. simpl. rewrite Hpeer. simpl.
  by rewrite option_guard_True.
Qed.

End broadcast.

(** C10: [intercomm_broadcast] checks nothing about [local_root].  In the
    sending group a rank passes [MPI.ROOT] with its value exactly when its
    local rank equals [local_root], and opts out with [MPI.PROC_NULL] and
    no value otherwise.  So a [local_root] inside the group makes exactly
    that rank the root, and a [local_root] outside [0, size) makes every
    rank of the group opt out. *)
Theorem intercomm_broadcast_root_unchecked `{MPI.Constants}
    (size : Z) (send_value local_root : Z) :
  (∀ local_rank,
     (intercomm_broadcast_args send_value local_rank local_root true
      = (Some send_value, MPI.ROOT) ↔ local_rank = local_root) ∧
     (intercomm_broadcast_args send_value local_rank local_root true
      = (None, MPI.PROC_NULL) ↔ local_rank ≠ local_root)) ∧
  (0 ≤ local_root < size →
   ∃ root_rank, 0 ≤ root_rank < size ∧
     ∀ local_rank, 0 ≤ local_rank < size →
       (intercomm_broadcast_args send_value local_rank local_root true).2
       = MPI.ROOT ↔ local_rank = root_rank) ∧
  (¬ (0 ≤ local_root < size) →
   ∀ local_rank, 0 ≤ local_rank < size →
     intercomm_broadcast_args send_value local_rank local_root true
     = (None, MPI.PROC_NULL)).
Proof.
  pose proof MPI.ROOT_PROC_NULL as Hne.
  assert (Hcases : ∀ local_rank,
    (intercomm_broadcast_args send_value local_rank local_root true
     = (Some send_value, MPI.ROOT) ↔ local_rank = local_root) ∧
    (intercomm_broadcast_args send_value local_rank local_root true
     = (None, MPI.PROC_NULL) ↔ local_rank ≠ local_root)).
  { intros local_rank. destruct (decide (local_rank = local_root)) as [->|].
    - rewrite sending_args_root.
      split; split; try done; try (intros [=]; by destruct Hne).
    - rewrite sending_args_passive by done.
      split; split; try done; try (intros [=]; by destruct Hne). }
  split_and!; [done| |].
  - intros Hin. exists local_root. split; [done|]. intros local_rank _.
    destruct (decide (local_rank = local_root)) as [->|].
    + by rewrite sending_args_root.
    + rewrite sending_args_passive by done. simpl. split; [|done].
      intros Heq. by destruct Hne.
  - intros Hout local_rank Hin. apply Hcases. lia.
Qed.

Lemma intercomm_broadcast_root_unchecked_witness :
  (∃ root_rank, 0 ≤ root_rank < 3 ∧
     ∀ local_rank, 0 ≤ local_rank < 3 →
       (intercomm_broadcast_args (H := Open_MPI) 7 local_rank 1 true).2
       = -4 ↔ local_rank = root_rank) ∧
  (∀ local_rank, 0 ≤ local_rank < 3 →
     intercomm_broadcast_args (H := Open_MPI) 7 local_rank 5 true
     = (None, -2)).
Proof.
  split.
  - apply (proj1 (proj2
             (intercomm_broadcast_root_unchecked (H := Open_MPI) 3 7 1))).
    lia.
  - apply (proj2 (proj2
             (intercomm_broadcast_root_unchecked (H := Open_MPI) 3 7 5))).
    lia.
Defined.

Section directed.
Context `{MPI.Constants}.
Implicit Types (w : list (proc (option Z))).

Lemma broadcasting_all_entered w intercomm send_value unused local_root :
  broadcasting w intercomm send_value unused local_root →
  all_entered in_intercomm_bcast intercomm w.
Proof.
  intros [Hsend Hrecv]. split; apply Forall_forall.
  - intros q [i Hi]%list_elem_of_lookup_1. unfold in_intercomm_bcast.
    by rewrite (Hsend i q Hi), intercomm_broadcast_unfold.
  - intros q [j Hj]%list_elem_of_lookup_1. unfold in_intercomm_bcast.
    by rewrite (Hrecv j q Hj), intercomm_broadcast_unfold.
Qed.

Lemma broadcasting_reply_sending w intercomm send_value unused local_root
    i q :
  broadcasting w intercomm send_value unused local_root →
  MPI.local_group intercomm !! i = Some q →
  reply w (intercomm_broadcast intercomm (send_value i) (Z.of_nat i)
             local_root true) = Some (Ret None).
Proof.
  intros Hw Hi. rewrite intercomm_broadcast_unfold. simpl.
  rewrite Intercomm_bcast_result_sending; [done| |].
  - by eapply broadcasting_all_entered.
  - unfold intercomm_broadcast_args. case_decide; auto.
Qed.

Lemma broadcasting_reply_receiving w intercomm send_value unused
    local_root j q :
  broadcasting w intercomm send_value unused local_root →
  0 ≤ local_root < Z.of_nat (length (MPI.local_group intercomm)) →
  MPI.remote_group intercomm !! j = Some q →
  reply w (intercomm_broadcast (MPI.mirror intercomm) (unused j)
             (Z.of_nat j) local_root false)
  = Some (Ret (Some (send_value (Z.to_nat local_root)))).
Proof.
  intros Hw Hroot Hj. rewrite intercomm_broadcast_unfold. simpl.
  destruct (lookup_lt_is_Some_2 (MPI.local_group intercomm)
              (Z.to_nat local_root)) as [sender Hsender]; [lia|].
  erewrite Intercomm_bcast_result_receiving; [done| |lia|exact Hsender|].
  - pose proof (broadcasting_all_entered _ _ _ _ _ Hw) as [? ?].
    split; [done|]. by rewrite mirror_mirror.
  - rewrite (proj1 Hw _ _ Hsender), intercomm_broadcast_unfold.
    rewrite Z2Nat.id by lia. by rewrite sending_args_root.
Qed.

End directed.

(** C3: when the two groups of a channel call [intercomm_broadcast] with a
    [local_root] that is a rank of the sending group, every rank of the
    receiving group returns the root's [send_value] and every rank of the
    sending group, the root included, returns [None].  With 3 sending
    ranks, 2 receiving ranks and [local_root = 1], only local rank 1 hands
    its value to the broadcast, both receiving ranks return it and the
    three sending ranks return [None]. *)
Theorem intercomm_broadcast_directed `{MPI.Constants} :
  (∀ (w : list (proc (option Z))) intercomm send_value unused local_root,
     broadcasting w intercomm send_value unused local_root →
     0 ≤ local_root < Z.of_nat (length (MPI.local_group intercomm)) →
     (∀ i q, MPI.local_group intercomm !! i = Some q →
        ∃ p, w !! q = Some p ∧ reply w p = Some (Ret None)) ∧
     (∀ j q, MPI.remote_group intercomm !! j = Some q →
        ∃ p, w !! q = Some p ∧
             reply w p
             = Some (Ret (Some (send_value (Z.to_nat local_root)))))) ∧
  (∀ send_value,
     intercomm_broadcast_args send_value 0 1 true = (None, MPI.PROC_NULL) ∧
     intercomm_broadcast_args send_value 1 1 true
     = (Some send_value, MPI.ROOT) ∧
     intercomm_broadcast_args send_value 2 1 true = (None, MPI.PROC_NULL) ∧
     step (sending_3_receiving_2 send_value)
     = Some [Ret None; Ret None; Ret None;
             Ret (Some send_value); Ret (Some send_value)]).
Proof.
  split.
  - intros w intercomm send_value unused local_root Hw Hroot. split.
    + intros i q Hi. eexists. split; [by apply (proj1 Hw)|].
      by eapply broadcasting_reply_sending.
    + intros j q Hj. eexists. split; [by apply (proj2 Hw)|].
      by eapply broadcasting_reply_receiving.
  - intros v.
    assert (Hw : broadcasting (sending_3_receiving_2 v) sending_3
                   (λ _, v) (λ _, 0) 1).
    { split.
      - intros [|[|[|i]]] q Hi; simplify_eq/=; done.
      - intros [|[|j]] q Hj; simplify_eq/=; done. }
    split_and!; [by rewrite sending_args_passive|by rewrite sending_args_root
                |by rewrite sending_args_passive|].
    unfold step.
    assert (forallb finished (sending_3_receiving_2 v) = false) as ->.
    { unfold sending_3_receiving_2.
      by rewrite !intercomm_broadcast_unfold. }
    apply mapM_Some_2. unfold sending_3_receiving_2 at 2.
    repeat constructor.
    + exact (broadcasting_reply_sending _ _ _ _ _ 0%nat _ Hw eq_refl).
    + exact (broadcasting_reply_sending _ _ _ _ _ 1%nat _ Hw eq_refl).
    + exact (broadcasting_reply_sending _ _ _ _ _ 2%nat _ Hw eq_refl).
    + refine (broadcasting_reply_receiving _ _ _ _ _ 0%nat _ Hw _ eq_refl).
      simpl. lia.
    + refine (broadcasting_reply_receiving _ _ _ _ _ 1%nat _ Hw _ eq_refl).
      simpl. lia.
Qed.

Lemma intercomm_broadcast_directed_witness :
  ∃ p, sending_3_receiving_2 (H := MPICH) 12345 !! 4%nat = Some p ∧
       reply (H := MPICH) (sending_3_receiving_2 (H := MPICH) 12345) p
       = Some (Ret (Some 12345)).
Proof.
  refine (proj2 (proj1 (intercomm_broadcast_directed (H := MPICH))
            (sending_3_receiving_2 (H := MPICH) 12345) sending_3
            (λ _, 12345) (λ _, 0) 1 _ _) 1%nat 4%nat eq_refl).
  - split.
    + intros [|[|[|i]]] q Hi; simplify_eq/=; reflexivity.
    + intros [|[|j]] q Hj; simplify_eq/=; reflexivity.
  - simpl. lia.
Defined.

(** ** Worlds and rounds *)

Section rounds.
Context `{MPI.Constants} {A : Type}.
Implicit Types (w : list (proc A)) (p : proc A) (state : nat → proc A).

Lemma lookup_world_of size state r :
  (r < size)%nat → world_of size state !! r = Some (state r).
Proof.
  intros Hr. unfold world_of.
  by rewrite list_lookup_fmap, lookup_seq_lt.
Qed.

Lemma length_world_of size state : length (world_of size state) = size.
Proof. unfold world_of. by rewrite length_fmap, length_seq. Qed.

(** A round of a world given rank by rank. *)
Lemma step_world_of size state state' r0 :
  (r0 < size)%nat → finished (state r0) = false →
  (∀ r, (r < size)%nat →
        reply (world_of size state) (state r) = Some (state' r)) →
  step (world_of size state) = Some (world_of size state').
Proof.
  intros Hr0 Hlive Hreply. unfold step.
  destruct (forallb finished (world_of size state)) eqn:Hall.
  - apply Is_true_true, forallb_True in Hall.
    rewrite Forall_lookup in Hall.
    specialize (Hall r0 _ (lookup_world_of _ _ _ Hr0)).
    by rewrite Hlive in Hall.
  - apply mapM_Some_2. unfold world_of at 2 3.
    apply Forall2_fmap, Forall_Forall2_diag, Forall_forall.
    intros r ?%elem_of_seq. apply Hreply. lia.
Qed.

Lemma by_role_solver {B} solver_size (s t : nat → B) r :
  (r < solver_size)%nat → by_role solver_size s t r = s r.
Proof. intros. unfold by_role. by rewrite decide_True. Qed.

Lemma by_role_tracker {B} solver_size (s t : nat → B) r :
  (solver_size ≤ r)%nat →
  by_role solver_size s t r = t (r - solver_size)%nat.
Proof. intros. unfold by_role. by rewrite decide_False by lia. Qed.

Lemma Forall_world_of (P : proc A → Prop) size state :
  (∀ r, (r < size)%nat → P (state r)) → Forall P (world_of size state).
Proof.
  intros HP. unfold world_of. apply Forall_fmap, Forall_forall.
  intros r ?%elem_of_seq. apply HP. lia.
Qed.

Lemma world_of_ext size state state' :
  (∀ r, (r < size)%nat → state r = state' r) →
  world_of size state = world_of size state'.
Proof.
  intros Hext. unfold world_of. apply list_eq. intros r.
  rewrite !list_lookup_fmap.
  destruct (seq 0 size !! r) as [q|] eqn:Hq; [|done].
  apply lookup_seq in Hq as [-> ?]. simpl. f_equal. by apply Hext.
Qed.

Lemma world_of_const size p : world_of size (λ _, p) = replicate size p.
Proof.
  unfold world_of. generalize 0%nat.
  induction size as [|size IH]; intros start; simpl; [done|].
  f_equal. apply IH.
Qed.


Lemma step_finished w : Forall (λ p, finished p = true) w → step w = None.
Proof.
  intros Hall. unfold step.
  assert (forallb finished w = true) as ->; [|done].
  apply Is_true_true, forallb_True.
  eapply Forall_impl; [exact Hall|]. intros p ->. done.
Qed.

Lemma history_S fuel w :
  history (S fuel) w
  = w :: match step w with Some w' => history fuel w' | None => [] end.
Proof. done. Qed.

Lemma history_finished fuel w :
  Forall (λ p, finished p = true) w → history fuel w = [w].
Proof.
  intros Hall. destruct fuel; simpl; [done|]. by rewrite step_finished.
Qed.





End rounds.

(** ** Coupled universes *)

Section coupled_universe.
Context `{MPI.Constants}.
Variables (ns nt : nat) (slabel tlabel : string).
Variables (sits sgrid tits tgrid parts : Z).
Hypothesis labels_differ : slabel ≠ tlabel.

Local Abbreviation universe :=
  (coupled ns nt (solver_py slabel sits sgrid)
     (tracker_py tlabel tits tgrid parts)).
Local Abbreviation labels := (replicate ns slabel ++ replicate nt tlabel).

Lemma coupled_labels : argv0_of <$> universe = labels.
Proof. unfold coupled. by rewrite fmap_app, !fmap_replicate. Qed.

Lemma length_labels : length labels = (ns + nt)%nat.
Proof. by rewrite length_app, !length_replicate. Qed.

Lemma lookup_labels_solver r : (r < ns)%nat → labels !! r = Some slabel.
Proof.
  intros. rewrite lookup_app_l by (by rewrite length_replicate).
  by apply lookup_replicate_2.
Qed.

Lemma lookup_labels_tracker r :
  (ns ≤ r < ns + nt)%nat → labels !! r = Some tlabel.
Proof.
  intros. rewrite lookup_app_r by (rewrite length_replicate; lia).
  rewrite length_replicate. apply lookup_replicate_2. lia.
Qed.

Lemma filter_labels_solver :
  filter (λ q, labels !! q = Some slabel) (seq 0 (length labels)) = seq 0 ns.
Proof.
  rewrite length_labels, seq_app, filter_app. simpl.
  rewrite <-(app_nil_r (seq 0 ns)) at 2. f_equal.
  - apply filter_all, Forall_forall.
    intros q ?%elem_of_seq. apply lookup_labels_solver. lia.
  - apply filter_none, Forall_forall.
    intros q ?%elem_of_seq. rewrite lookup_labels_tracker by lia.
    congruence.
Qed.

Lemma filter_labels_tracker :
  filter (λ q, labels !! q = Some tlabel) (seq 0 (length labels)) = seq ns nt.
Proof.
  rewrite length_labels, seq_app, filter_app. simpl.
  rewrite <-(app_nil_l (seq ns nt)) at 2. f_equal.
  - apply filter_none, Forall_forall.
    intros q ?%elem_of_seq. rewrite lookup_labels_solver by lia.
    congruence.
  - apply filter_all, Forall_forall.
    intros q ?%elem_of_seq. apply lookup_labels_tracker. lia.
Qed.

Lemma partition_solver r :
  (r < ns)%nat → partition_by_string labels r = Some (solver_group ns).
Proof.
  intros Hr.
  rewrite (partition_by_string_Some _ _ _ (lookup_labels_solver r Hr)).
  by rewrite filter_labels_solver.
Qed.

Lemma partition_tracker r :
  (ns ≤ r < ns + nt)%nat →
  partition_by_string labels r = Some (tracker_group ns nt).
Proof.
  intros Hr.
  rewrite (partition_by_string_Some _ _ _ (lookup_labels_tracker r Hr)).
  by rewrite filter_labels_tracker.
Qed.

Lemma Get_rank_seq context start size r :
  (start ≤ r < start + size)%nat →
  MPI.Get_rank {| MPI.context := context; MPI.group := seq start size |} r
  = Some (r - start)%nat.
Proof.
  intros Hr. unfold MPI.Get_rank. simpl. apply fmap_Some.
  exists ((r - start)%nat, r). split; [|done].
  apply list_find_Some. split_and!; [|done|].
  - apply lookup_seq. lia.
  - intros j y [-> ?]%lookup_seq ?. lia.
Qed.

Hypothesis solvers : (0 < ns)%nat.
Hypothesis trackers : (0 < nt)%nat.

Lemma Compare_shorter context start size :
  (size < ns + nt)%nat →
  MPI.Compare {| MPI.context := context; MPI.group := seq start size |}
    (MPI.COMM_WORLD (ns + nt)) = MPI.UNEQUAL.
Proof.
  intros Hsize. unfold MPI.Compare. simpl.
  assert (Hperm : ¬ seq start size ≡ₚ seq 0 (ns + nt)).
  { intros Hperm%Permutation_length. rewrite !length_seq in Hperm. lia. }
  assert (Hne : seq start size ≠ seq 0 (ns + nt)).
  { intros Heq. apply Hperm. by rewrite Heq. }
  repeat case_decide; try done. tauto.
Qed.

Lemma Compare_solver_group :
  MPI.Compare (solver_group ns) (MPI.COMM_WORLD (ns + nt)) = MPI.UNEQUAL.
Proof. apply Compare_shorter. lia. Qed.

Lemma Compare_tracker_group :
  MPI.Compare (tracker_group ns nt) (MPI.COMM_WORLD (ns + nt))
  = MPI.UNEQUAL.
Proof. apply Compare_shorter. lia. Qed.

(** The solver's own error count; it does not depend on the rank. *)
Local Abbreviation solver_count :=
  (configure_solver 0 (Z.of_nat ns) sgrid).
Local Abbreviation tracker_count :=
  (configure_tracker 0 (Z.of_nat nt) parts).

Lemma solver_unfold r :
  (r < ns)%nat →
  solver labels r sits sgrid
  = World_bcast solver_count 0
      (λ _, if bool_decide (solver_count > 0) then Exit 1
            else solver_started (solver_group ns) (ns + nt) (Z.of_nat r)
                   (Z.of_nat ns) sits sgrid).
Proof.
  intros Hr. unfold solver. rewrite partition_solver by done.
  unfold solver_group at 1. rewrite Get_rank_seq by lia.
  unfold MPI.Get_size. simpl MPI.group.
  rewrite length_seq, length_labels, Nat.sub_0_r. reflexivity.
Qed.

Lemma tracker_unfold r :
  (ns ≤ r < ns + nt)%nat →
  tracker labels r tits tgrid parts
  = World_bcast 0 0
      (λ count, if bool_decide (count > 0) then Exit 1
                else tracker_handshake (tracker_group ns nt)
                       (Z.of_nat (r - ns)) (Z.of_nat nt) tits tgrid parts).
Proof.
  intros Hr. unfold tracker. rewrite partition_tracker by done.
  unfold tracker_group at 1. rewrite Get_rank_seq by lia.
  unfold MPI.Get_size. simpl MPI.group.
  rewrite length_seq, length_labels, Compare_tracker_group.
  reflexivity.
Qed.

Lemma lookup_launch_solver r :
  (r < ns)%nat →
  launch universe !! r = Some (solver labels r sits sgrid).
Proof.
  intros Hr. unfold launch. rewrite list_lookup_imap. unfold coupled at 2.
  rewrite lookup_app_l by (by rewrite length_replicate).
  rewrite lookup_replicate_2 by done. simpl. by rewrite coupled_labels.
Qed.

Lemma lookup_launch_tracker r :
  (ns ≤ r < ns + nt)%nat →
  launch universe !! r = Some (tracker labels r tits tgrid parts).
Proof.
  intros Hr. unfold launch. rewrite list_lookup_imap. unfold coupled at 2.
  rewrite lookup_app_r by (rewrite length_replicate; lia).
  rewrite length_replicate, lookup_replicate_2 by lia. simpl.
  by rewrite coupled_labels.
Qed.

Lemma length_launch : length (launch universe) = (ns + nt)%nat.
Proof.
  unfold launch, coupled.
  by rewrite length_imap, length_app, !length_replicate.
Qed.

(** Every rank of the launched universe is in the world broadcast. *)
Lemma launch_world_of :
  launch universe
  = world_of (ns + nt)
      (by_role ns
         (λ r, World_bcast solver_count 0
                 (λ _, if bool_decide (solver_count > 0) then Exit 1
                       else solver_started (solver_group ns) (ns + nt)
                              (Z.of_nat r) (Z.of_nat ns) sits sgrid))
         (λ j, World_bcast 0 0
                 (λ count, if bool_decide (count > 0) then Exit 1
                           else tracker_handshake (tracker_group ns nt)
                                  (Z.of_nat j) (Z.of_nat nt) tits tgrid
                                  parts))).
Proof.
  apply list_eq. intros r.
  destruct (decide (r < ns + nt)%nat) as [Hr|Hr].
  - rewrite lookup_world_of by done. unfold by_role. case_decide.
    + by rewrite lookup_launch_solver, solver_unfold.
    + by rewrite lookup_launch_tracker, tracker_unfold by lia.
  - rewrite !lookup_ge_None_2; [done| |].
    + rewrite length_world_of. lia.
    + rewrite length_launch. lia.
Qed.

(** *** The world broadcast *)

Lemma World_bcast_result_launch :
  World_bcast_result (launch universe) 0 = Some solver_count.
Proof.
  rewrite launch_world_of. unfold World_bcast_result.
  rewrite option_guard_True.
  2:{ apply Forall_world_of. intros r _. unfold by_role.
      by destruct (decide (r < ns)%nat). }
  rewrite option_guard_True by done. simpl.
  rewrite lookup_world_of by lia. simpl.
  by rewrite by_role_solver.
Qed.

Lemma step_launch :
  step (launch universe)
  = Some (if bool_decide (solver_count > 0)
          then replicate (ns + nt) (Exit 1)
          else world_after_startup ns nt sits sgrid tits tgrid parts).
Proof.
  pose proof World_bcast_result_launch as Hresult.
  rewrite launch_world_of in *.
  erewrite (step_world_of _ _
    (by_role ns
       (λ r, if bool_decide (solver_count > 0) then Exit 1
             else solver_started (solver_group ns) (ns + nt) (Z.of_nat r)
                    (Z.of_nat ns) sits sgrid)
       (λ j, if bool_decide (solver_count > 0) then Exit 1
             else tracker_handshake (tracker_group ns nt) (Z.of_nat j)
                    (Z.of_nat nt) tits tgrid parts)) 0%nat).
  - f_equal. case_bool_decide.
    + rewrite <-world_of_const. apply world_of_ext. intros r _.
      unfold by_role. by destruct (decide (r < ns)%nat).
    + done.
  - lia.
  - by rewrite by_role_solver.
  - intros r Hr.
    destruct (decide (r < ns)%nat).
    + rewrite !(by_role_solver _ _ _ r) by done. cbn [reply].
      by rewrite Hresult.
    + rewrite !(by_role_tracker _ _ _ r) by lia. cbn [reply].
      by rewrite Hresult.
Qed.

(** *** The creation of the channel *)

Local Abbreviation world1 :=
  (world_after_startup ns nt sits sgrid tits tgrid parts).
Local Abbreviation channel := (solver_channel ns nt).

Lemma solver_started_unfold r :
  solver_started (solver_group ns) (ns + nt) (Z.of_nat r) (Z.of_nat ns)
    sits sgrid
  = Create_intercomm (solver_group ns) 0 (Z.of_nat ns)
      (λ intercomm,
         intercomm ← solver_confirm intercomm (Z.of_nat r);
         solver_run intercomm (Z.of_nat r) (Z.of_nat ns) sits sgrid).
Proof.
  unfold solver_started, solver_coupling.
  rewrite Compare_solver_group. reflexivity.
Qed.

Lemma tracker_handshake_unfold j :
  tracker_handshake (tracker_group ns nt) (Z.of_nat j) (Z.of_nat nt)
    tits tgrid parts
  = Create_intercomm (tracker_group ns nt) 0 0
      (λ intercomm,
         tracker_report intercomm tracker_count (Z.of_nat j) tits tgrid).
Proof. reflexivity. Qed.

Lemma lookup_world1_solver r :
  (r < ns)%nat →
  world1 !! r
  = Some (Create_intercomm (solver_group ns) 0 (Z.of_nat ns)
            (λ intercomm,
               intercomm ← solver_confirm intercomm (Z.of_nat r);
               solver_run intercomm (Z.of_nat r) (Z.of_nat ns) sits sgrid)).
Proof.
  intros Hr. unfold world_after_startup.
  rewrite lookup_world_of, by_role_solver by lia.
  by rewrite solver_started_unfold.
Qed.

Lemma lookup_world1_tracker r :
  (ns ≤ r < ns + nt)%nat →
  world1 !! r
  = Some (Create_intercomm (tracker_group ns nt) 0 0
            (λ intercomm,
               tracker_report intercomm tracker_count (Z.of_nat (r - ns))
                 tits tgrid)).
Proof.
  intros Hr. unfold world_after_startup.
  by rewrite lookup_world_of, by_role_tracker by lia.
Qed.

Lemma world1_entered :
  Forall (in_create_intercomm (solver_group ns) 0 (Z.of_nat ns) world1)
    (seq 0 ns) ∧
  Forall (in_create_intercomm (tracker_group ns nt) 0 0 world1)
    (seq ns nt).
Proof.
  split; apply Forall_forall; intros q ?%elem_of_seq;
    unfold in_create_intercomm.
  - by rewrite lookup_world1_solver by lia.
  - by rewrite lookup_world1_tracker by lia.
Qed.

Lemma groups_disjoint :
  Forall (λ q, q ∉ seq ns nt) (seq 0 ns) ∧
  Forall (λ q, q ∉ seq 0 ns) (seq ns nt).
Proof.
  split; apply Forall_forall; intros q ?%elem_of_seq ?%elem_of_seq; lia.
Qed.

Lemma Create_intercomm_result_solver :
  Create_intercomm_result world1 (solver_group ns) 0 (Z.of_nat ns)
  = Some channel.
Proof.
  destruct world1_entered, groups_disjoint.
  unfold Create_intercomm_result.
  rewrite option_guard_True by lia. simpl.
  rewrite lookup_seq_lt by lia. simpl.
  rewrite Nat2Z.id, lookup_world1_tracker by lia. simpl.
  rewrite option_guard_True.
  2:{ split_and!; [lia| |done]. apply lookup_seq. lia. }
  rewrite option_guard_True by done.
  by rewrite option_guard_True.
Qed.

Lemma Create_intercomm_result_tracker :
  Create_intercomm_result world1 (tracker_group ns nt) 0 0
  = Some (MPI.mirror channel).
Proof.
  destruct world1_entered, groups_disjoint.
  unfold Create_intercomm_result.
  rewrite option_guard_True by lia. simpl.
  rewrite lookup_seq_lt by lia. simpl.
  rewrite lookup_world1_solver by lia. simpl.
  rewrite option_guard_True.
  2:{ split_and!; [lia| |f_equal; lia]. apply lookup_seq. lia. }
  rewrite option_guard_True by done.
  by rewrite option_guard_True.
Qed.

Lemma step_world1 :
  step world1
  = Some (world_at_confirmation ns nt sits sgrid tits tgrid parts).
Proof.
  unfold world_after_startup at 1.
  apply (step_world_of _ _ _ 0%nat); [lia| |].
  - by rewrite by_role_solver, solver_started_unfold.
  - intros r Hr. fold world1. destruct (decide (r < ns)%nat).
    + rewrite !(by_role_solver _ _ _ r) by done.
      rewrite solver_started_unfold. cbn [reply].
      by rewrite Create_intercomm_result_solver.
    + rewrite !(by_role_tracker _ _ _ r) by lia.
      rewrite tracker_handshake_unfold. cbn [reply].
      by rewrite Create_intercomm_result_tracker.
Qed.

(** *** The directed broadcast of the tracker's count *)

Local Abbreviation world2 :=
  (world_at_confirmation ns nt sits sgrid tits tgrid parts).

Lemma solver_confirm_unfold r :
  (intercomm ← solver_confirm channel (Z.of_nat r);
   solver_run intercomm (Z.of_nat r) (Z.of_nat ns) sits sgrid)
  = Intercomm_bcast channel None 0
      (λ count,
         intercomm ← (if positive_count count then Exit 1
                      else mret (Some channel));
         solver_run intercomm (Z.of_nat r) (Z.of_nat ns) sits sgrid).
Proof. reflexivity. Qed.

Lemma tracker_report_unfold j :
  tracker_report (MPI.mirror channel) tracker_count (Z.of_nat j) tits tgrid
  = Intercomm_bcast (MPI.mirror channel)
      (intercomm_broadcast_args tracker_count (Z.of_nat j) 0 true).1
      (intercomm_broadcast_args tracker_count (Z.of_nat j) 0 true).2
      (λ _, if bool_decide (tracker_count > 0) then Exit 1
            else tracker_run (MPI.mirror channel) tits tgrid).
Proof.
  unfold tracker_report. by rewrite intercomm_broadcast_unfold.
Qed.

Lemma lookup_world2_solver r :
  (r < ns)%nat →
  world2 !! r
  = Some (Intercomm_bcast channel None 0
      (λ count,
         intercomm ← (if positive_count count then Exit 1
                      else mret (Some channel));
         solver_run intercomm (Z.of_nat r) (Z.of_nat ns) sits sgrid)).
Proof.
  intros Hr. unfold world_at_confirmation.
  by rewrite lookup_world_of, by_role_solver by lia.
Qed.

Lemma lookup_world2_tracker r :
  (ns ≤ r < ns + nt)%nat →
  world2 !! r
  = Some (Intercomm_bcast (MPI.mirror channel)
      (intercomm_broadcast_args tracker_count (Z.of_nat (r - ns)) 0 true).1
      (intercomm_broadcast_args tracker_count (Z.of_nat (r - ns)) 0 true).2
      (λ _, if bool_decide (tracker_count > 0) then Exit 1
            else tracker_run (MPI.mirror channel) tits tgrid)).
Proof.
  intros Hr. unfold world_at_confirmation.
  rewrite lookup_world_of, by_role_tracker by lia.
  by rewrite <-tracker_report_unfold.
Qed.

Lemma world2_entered : all_entered in_intercomm_bcast channel world2.
Proof.
  split; apply Forall_forall; simpl; intros q ?%elem_of_seq;
    unfold in_intercomm_bcast.
  - by rewrite lookup_world2_solver by lia.
  - by rewrite lookup_world2_tracker by lia.
Qed.

Lemma world2_entered_mirror :
  all_entered in_intercomm_bcast (MPI.mirror channel) world2.
Proof. destruct world2_entered. by split. Qed.

(** The solver ranks receive the count of tracker rank 0. *)
Lemma Intercomm_bcast_result_solver :
  Intercomm_bcast_result world2 channel 0 = Some (Some tracker_count).
Proof.
  eapply (Intercomm_bcast_result_receiving _ _ _ ns);
    [apply world2_entered|done|simpl; apply lookup_seq; lia|].
  rewrite lookup_world2_tracker by lia.
  rewrite Nat.sub_diag. change (Z.of_nat 0) with 0.
  by rewrite sending_args_root.
Qed.

Lemma Intercomm_bcast_result_tracker j :
  Intercomm_bcast_result world2 (MPI.mirror channel)
    (intercomm_broadcast_args tracker_count (Z.of_nat j) 0 true).2
  = Some None.
Proof.
  apply Intercomm_bcast_result_sending; [apply world2_entered_mirror|].
  unfold intercomm_broadcast_args. case_decide; auto.
Qed.

Lemma step_world2 :
  step world2
  = Some (if bool_decide (tracker_count > 0)
          then replicate (ns + nt) (Exit 1)
          else world_at_loop ns nt sits sgrid tits tgrid).
Proof.
  unfold world_at_confirmation at 1.
  erewrite (step_world_of _ _
    (by_role ns
       (λ r, if bool_decide (tracker_count > 0) then Exit 1
             else solver_run (Some channel) (Z.of_nat r) (Z.of_nat ns)
                    sits sgrid)
       (λ j, if bool_decide (tracker_count > 0) then Exit 1
             else tracker_run (MPI.mirror channel) tits tgrid)) 0%nat).
  - f_equal. case_bool_decide; [|done].
    rewrite <-world_of_const. apply world_of_ext. intros r _.
    unfold by_role. by destruct (decide (r < ns)%nat).
  - lia.
  - by rewrite by_role_solver.
  - intros r Hr. fold world2. destruct (decide (r < ns)%nat).
    + rewrite !(by_role_solver _ _ _ r) by done.
      rewrite solver_confirm_unfold. cbn [reply].
      rewrite Intercomm_bcast_result_solver. simpl.
      by case_bool_decide.
    + rewrite !(by_role_tracker _ _ _ r) by lia.
      rewrite tracker_report_unfold. cbn [reply].
      by rewrite Intercomm_bcast_result_tracker.
Qed.

(** *** The handshake as a whole *)

Lemma history_launch_failed fuel :
  solver_count > 0 →
  history (S fuel) (launch universe)
  = [launch universe; replicate (ns + nt) (Exit 1)].
Proof.
  intros Hcount. rewrite history_S, step_launch.
  rewrite bool_decide_eq_true_2 by done.
  rewrite history_finished; [done|]. by apply Forall_replicate.
Qed.

Lemma history_launch_started fuel :
  ¬ solver_count > 0 →
  history (S (S fuel)) (launch universe)
  = launch universe :: world1 :: history fuel world2.
Proof.
  intros Hcount. rewrite history_S, step_launch.
  rewrite bool_decide_eq_false_2 by done.
  by rewrite history_S, step_world1.
Qed.

End coupled_universe.

Lemma configure_solver_cases application_rank application_size
    number_grid_points :
  configure_solver application_rank application_size number_grid_points = 0
  ∨ configure_solver application_rank application_size number_grid_points
    = 1.
Proof. unfold configure_solver. repeat case_decide; auto. Qed.

Lemma configure_tracker_cases application_rank application_size
    number_particles :
  configure_tracker application_rank application_size number_particles = 0
  ∨ configure_tracker application_rank application_size number_particles
    = 1.
Proof. unfold configure_tracker. repeat case_decide; auto. Qed.



Lemma history_head `{MPI.Constants} {A} fuel (w : list (proc A)) :
  history fuel w !! 0%nat = Some w.
Proof. by destruct fuel. Qed.

(** C6: in a coupled run the world broadcast carries the solver's error
    count and nothing of the tracker: every solver rank passes its count,
    every tracker rank a plain 0 whatever its particle count, and every
    rank of the universe receives the solver's count, zero or not.  A
    nonzero solver count ends the run there, with no directed broadcast.
    After a solver count of 0 the third call of the run is the directed
    broadcast: every tracker rank enters it as a sender with its own error
    count and [local_root = 0], every solver rank as a receiver; the
    solver ranks get the tracker's count and exit with status 1 when it is
    not zero. *)
Theorem handshake_directed_broadcast `{MPI.Constants} (ns nt : nat)
    (slabel tlabel : string) (sits sgrid tits tgrid parts : Z) (fuel : nat) :
  slabel ≠ tlabel → (0 < ns)%nat → (0 < nt)%nat →
  let universe :=
    coupled ns nt (solver_py slabel sits sgrid)
      (tracker_py tlabel tits tgrid parts) in
  let channel := solver_channel ns nt in
  let solver_count := configure_solver 0 (Z.of_nat ns) sgrid in
  let tracker_count := configure_tracker 0 (Z.of_nat nt) parts in
  (∀ r, (r < ns)%nat → ∃ k,
     let obj := configure_solver (Z.of_nat r) (Z.of_nat ns) sgrid in
     launch universe !! r = Some (World_bcast obj 0 k) ∧
     reply (launch universe) (World_bcast obj 0 k)
     = Some (k solver_count)) ∧
  (∀ j, (j < nt)%nat → ∃ k,
     launch universe !! (ns + j)%nat = Some (World_bcast 0 0 k) ∧
     reply (launch universe) (World_bcast 0 0 k) = Some (k solver_count)) ∧
  World_bcast_result (launch universe) 0 = Some solver_count ∧
  (solver_count ≠ 0 →
   history (S fuel) (launch universe)
   = [launch universe; replicate (ns + nt) (Exit 1)]) ∧
  (solver_count = 0 →
   ∃ world2,
     history (2 + fuel) (launch universe) !! 2%nat = Some world2 ∧
     (∀ j, (j < nt)%nat → ∃ k,
        let args :=
          intercomm_broadcast_args
            (configure_tracker (Z.of_nat j) (Z.of_nat nt) parts)
            (Z.of_nat j) 0 true in
        world2 !! (ns + j)%nat
        = Some (Intercomm_bcast (MPI.mirror channel) args.1 args.2 k) ∧
        reply world2 (Intercomm_bcast (MPI.mirror channel) args.1 args.2 k)
        = Some (k None)) ∧
     (∀ r, (r < ns)%nat → ∃ k,
        let args := intercomm_broadcast_args 0 (Z.of_nat r) 0 false in
        world2 !! r = Some (Intercomm_bcast channel args.1 args.2 k) ∧
        reply world2 (Intercomm_bcast channel args.1 args.2 k)
        = Some (k (Some tracker_count)) ∧
        (tracker_count ≠ 0 → k (Some tracker_count) = Exit 1))).
Proof.
  intros Hlabels Hns Hnt universe channel solver_count tracker_count.
  assert (Hresult : World_bcast_result (launch universe) 0
                    = Some solver_count)
    by (by apply World_bcast_result_launch).
  split_and!.
  - intros r Hr. unfold universe.
    rewrite lookup_launch_solver, solver_unfold by done.
    eexists. split; [done|]. cbn [reply].
    fold universe. by rewrite Hresult.
  - intros j Hj. unfold universe.
    rewrite lookup_launch_tracker, tracker_unfold by (done || lia).
    eexists. split; [done|]. cbn [reply].
    fold universe. by rewrite Hresult.
  - done.
  - intros Hcount. apply history_launch_failed; try done.
    destruct (configure_solver_cases 0 (Z.of_nat ns) sgrid);
      unfold solver_count in *; lia.
  - intros Hcount.
    exists (world_at_confirmation ns nt sits sgrid tits tgrid parts).
    split_and!.
    + unfold universe. simpl plus.
      rewrite history_launch_started
        by (try done; unfold solver_count in *; lia).
      simpl. apply history_head.
    + intros j Hj. cbv zeta.
      change (configure_tracker (Z.of_nat j) (Z.of_nat nt) parts)
        with (configure_tracker 0 (Z.of_nat nt) parts).
      rewrite lookup_world2_tracker by (done || lia).
      replace (ns + j - ns)%nat with j by lia.
      eexists. split; [done|]. cbn [reply].
      by rewrite (Intercomm_bcast_result_tracker ns nt).
    + intros r Hr. cbv zeta.
      rewrite lookup_world2_solver by (done || lia).
      eexists. split; [done|]. cbn [reply].
      rewrite (Intercomm_bcast_result_solver ns nt) by done.
      split; [done|]. intros Hne. simpl.
      rewrite bool_decide_eq_true_2; [done|].
      destruct (configure_tracker_cases 0 (Z.of_nat nt) parts);
        unfold tracker_count in *; lia.
Qed.

Lemma handshake_directed_broadcast_witness :
  World_bcast_result
    (launch (H := MPICH)
       (coupled 2 2 (solver_py "solver.py" 1 5)
          (tracker_py "tracker.py" 1 4 3))) 0
  = Some 1 ∧
  history (H := MPICH) 3
    (launch (H := MPICH)
       (coupled 2 2 (solver_py "solver.py" 1 5)
          (tracker_py "tracker.py" 1 4 3)))
  = [launch (H := MPICH)
       (coupled 2 2 (solver_py "solver.py" 1 5)
          (tracker_py "tracker.py" 1 4 3));
     replicate 4 (Exit 1)] ∧
  ∃ world2,
    history (H := MPICH) 2
      (launch (H := MPICH)
         (coupled 2 2 (solver_py "solver.py" 1 4)
            (tracker_py "tracker.py" 1 4 3))) !! 2%nat
    = Some world2.
Proof.
  assert (Hlabels : "solver.py"%string ≠ "tracker.py"%string).
  { intros Heq. discriminate Heq. }
  split_and!.
  - refine (proj1 (proj2 (proj2
      (handshake_directed_broadcast (H := MPICH) 2 2 "solver.py"
         "tracker.py" 1 5 1 4 3 0 Hlabels _ _)))); lia.
  - refine (proj1 (proj2 (proj2 (proj2
      (handshake_directed_broadcast (H := MPICH) 2 2 "solver.py"
         "tracker.py" 1 5 1 4 3 2 Hlabels _ _)))) _); [lia|lia|].
    intros Heq. discriminate Heq.
  - destruct (proj2 (proj2 (proj2 (proj2
      (handshake_directed_broadcast (H := MPICH) 2 2 "solver.py"
         "tracker.py" 1 4 1 4 3 0 Hlabels ltac:(lia) ltac:(lia)))))
      eq_refl) as (world2 & Hworld2 & _).
    exists world2. exact Hworld2.
Defined.

(** ** The loops never create a channel *)

Section channel_free.
Context `{MPI.Constants}.






End channel_free.

(** C2, as the code has it: [configure_tracker] counts no error for a
    particle count of 0 or below, where [configure_solver] counts one for
    its grid points; a coupled run whose tracker was given 0 particles
    goes through the handshake and the loop and every process ends with
    status 0. *)
Theorem configure_tracker_non_positive_uncounted :
  configure_tracker 0 2 0 = 0 ∧
  configure_tracker 0 2 (-5) = 0 ∧
  configure_solver 0 2 0 = 1 ∧
  exit_statuses <$>
    last (history (H := MPICH) 10
            (launch (H := MPICH)
               (coupled 2 2 (solver_py "solver.py" 1 4)
                  (tracker_py "tracker.py" 1 4 0))))
  = Some [Some 0; Some 0; Some 0; Some 0].
Proof. split_and!; by vm_compute. Qed.




(** C8: in a universe made only of tracker ranks started under one name,
    [partition_by_string] returns to every rank a group with the members
    of the world in the same order, the comparison with the world gives
    [CONGRUENT] rather than [UNEQUAL], and every process has exited with
    status 1 without any call pending: the launched world makes no round
    at all. *)
Theorem tracker_alone `{MPI.Constants} (universe : list program)
    (tlabel : string) (fuel : nat) :
  (∀ prog, prog ∈ universe →
     ∃ number_iterations number_grid_points number_particles,
       prog = tracker_py tlabel number_iterations number_grid_points
                number_particles) →
  (∀ r, (r < length universe)%nat →
     ∃ comm,
       partition_by_string (argv0_of <$> universe) r = Some comm ∧
       MPI.group comm = MPI.group (MPI.COMM_WORLD (length universe)) ∧
       MPI.Compare comm (MPI.COMM_WORLD (length universe))
       = MPI.CONGRUENT) ∧
  launch universe = replicate (length universe) (Exit 1) ∧
  step (launch universe) = None ∧
  history fuel (launch universe) = [launch universe].
Proof.
  intros Htrackers.
  assert (Hlabel : ∀ q, (q < length universe)%nat →
            (argv0_of <$> universe) !! q = Some tlabel).
  { intros q [prog Hprog]%lookup_lt_is_Some.
    rewrite list_lookup_fmap, Hprog. simpl.
    destruct (Htrackers prog) as (? & ? & ? & ->); [|done].
    by eapply list_elem_of_lookup_2. }
  assert (Hpartition : ∀ r, (r < length universe)%nat →
            partition_by_string (argv0_of <$> universe) r
            = Some {| MPI.context := 1;
                      MPI.group := seq 0 (length universe) |}).
  { intros r Hr. rewrite (partition_by_string_Some _ _ tlabel) by auto.
    rewrite length_fmap. do 2 f_equal.
    apply filter_all, Forall_forall. intros q ?%elem_of_seq.
    apply Hlabel. lia. }
  assert (Hcompare :
    MPI.Compare {| MPI.context := 1; MPI.group := seq 0 (length universe) |}
      (MPI.COMM_WORLD (length universe)) = MPI.CONGRUENT).
  { unfold MPI.Compare. simpl.
    repeat case_decide; done. }
  assert (Hlaunch : launch universe = replicate (length universe) (Exit 1)).
  { apply list_eq. intros r. unfold launch. rewrite list_lookup_imap.
    destruct (universe !! r) as [prog|] eqn:Hprog; simpl.
    - pose proof (lookup_lt_Some _ _ _ Hprog) as Hr.
      rewrite lookup_replicate_2 by done. f_equal.
      destruct (Htrackers prog) as (? & ? & ? & ->);
        [by eapply list_elem_of_lookup_2|].
      simpl. unfold tracker. rewrite Hpartition by done.
      rewrite Get_rank_seq by lia. rewrite length_fmap, Hcompare.
      reflexivity.
    - symmetry. apply lookup_replicate_None.
      by apply lookup_ge_None. }
  assert (Hfinished :
    Forall (λ p : proc fields, finished p = true) (launch universe)).
  { rewrite Hlaunch. by apply Forall_replicate. }
  split_and!.
  - intros r Hr. eexists. split; [by apply Hpartition|]. done.
  - done.
  - by apply step_finished.
  - by apply history_finished.
Qed.

Lemma tracker_alone_witness :
  launch (H := MPICH)
    [tracker_py "tracker.py" 5 8 4; tracker_py "tracker.py" 5 8 4]
  = [Exit 1; Exit 1].
Proof.
  refine (proj1 (proj2
    (tracker_alone (H := MPICH)
       [tracker_py "tracker.py" 5 8 4; tracker_py "tracker.py" 5 8 4]
       "tracker.py" 0 _))).
  intros prog Hprog.
  apply elem_of_cons in Hprog as [->|Hprog]; [by eexists _, _, _|].
  apply elem_of_cons in Hprog as [->|Hprog]; [by eexists _, _, _|].
  by apply elem_of_nil in Hprog.
Defined.

(** ** The exchange loop *)

Section exchange.
Context `{MPI.Constants} {A : Type}.
Variables (ns nt : nat).
Hypothesis solvers : (0 < ns)%nat.
Hypothesis trackers : (0 < nt)%nat.

Local Abbreviation channel := (solver_channel ns nt).

Lemma mapM_fmap_seq {B} (f : nat → option B) (g : nat → B) start size :
  (∀ q, (start ≤ q < start + size)%nat → f q = Some (g q)) →
  mapM f (seq start size) = Some (g <$> seq start size).
Proof.
  intros Hf. apply mapM_Some_2, Forall2_fmap_r, Forall_Forall2_diag.
  apply Forall_forall. intros q ?%elem_of_seq. by apply Hf.
Qed.

Lemma concat_nils {B} (l : list (list B)) :
  Forall (λ block, block = []) l → concat l = [].
Proof. induction 1 as [|? ? -> _ IH]; simpl; done. Qed.

(** One all-gather round: solver rank [r] sends [send r] and receives
    into an empty buffer, tracker rank [j] sends nothing and receives into
    [recv j]. *)
Section round.
Variables (send : nat → list Z) (recv : nat → list Z).
Variables (ks kt : nat → list Z → proc A).
Variable (count : nat).
Hypothesis length_send : ∀ r, (r < ns)%nat → length (send r) = count.
Hypothesis length_recv :
  ∀ j, (j < nt)%nat → length (recv j) = (count * ns)%nat.

Local Abbreviation gathering :=
  (world_of (ns + nt)
     (by_role ns (λ r, Allgather channel (send r) empty_data (ks r))
        (λ j, Allgather (MPI.mirror channel) empty_data (recv j) (kt j)))).

Lemma lookup_gathering_solver r :
  (r < ns)%nat →
  gathering !! r = Some (Allgather channel (send r) empty_data (ks r)).
Proof. intros. by rewrite lookup_world_of, by_role_solver by lia. Qed.

Lemma lookup_gathering_tracker r :
  (ns ≤ r < ns + nt)%nat →
  gathering !! r
  = Some (Allgather (MPI.mirror channel) empty_data (recv (r - ns))
            (kt (r - ns)%nat)).
Proof. intros. by rewrite lookup_world_of, by_role_tracker by lia. Qed.

Lemma gathering_entered : all_entered in_Allgather channel gathering.
Proof.
  split; apply Forall_forall; simpl; intros q ?%elem_of_seq;
    unfold in_Allgather.
  - by rewrite lookup_gathering_solver by lia.
  - by rewrite lookup_gathering_tracker by lia.
Qed.

Lemma Allgather_result_solver :
  Allgather_result gathering channel empty_data = Some [].
Proof.
  unfold Allgather_result.
  rewrite option_guard_True by apply gathering_entered. simpl.
  rewrite Nat.Div0.div_0_l.
  rewrite option_guard_True by done.
  rewrite (mapM_fmap_seq _ (λ _, [])).
  2:{ intros q Hq. unfold Allgather_sendbuf.
      by rewrite lookup_gathering_tracker by lia. }
  simpl. rewrite option_guard_True.
  2:{ apply Forall_fmap, Forall_forall. done. }
  f_equal. apply concat_nils, Forall_fmap, Forall_forall. done.
Qed.

Lemma Allgather_result_tracker j :
  (j < nt)%nat →
  Allgather_result gathering (MPI.mirror channel) (recv j)
  = Some (concat (send <$> seq 0 ns)).
Proof.
  intros Hj. unfold Allgather_result.
  rewrite option_guard_True.
  2:{ destruct gathering_entered. by split. }
  simpl. rewrite length_seq, length_recv by done.
  rewrite Nat.div_mul by lia.
  rewrite option_guard_True by done.
  rewrite (mapM_fmap_seq _ send).
  2:{ intros q Hq. unfold Allgather_sendbuf.
      by rewrite lookup_gathering_solver by lia. }
  simpl. rewrite option_guard_True; [done|].
  apply Forall_fmap, Forall_forall. intros q ?%elem_of_seq. simpl.
  apply length_send. lia.
Qed.

Lemma step_gathering :
  step gathering
  = Some (world_of (ns + nt)
            (by_role ns (λ r, ks r [])
               (λ j, kt j (concat (send <$> seq 0 ns))))).
Proof.
  apply (step_world_of _ _ _ 0%nat); [lia| |].
  - by rewrite by_role_solver.
  - intros r Hr. destruct (decide (r < ns)%nat).
    + rewrite !(by_role_solver _ _ _ r) by done. cbn [reply].
      by rewrite Allgather_result_solver.
    + rewrite !(by_role_tracker _ _ _ r) by lia. cbn [reply].
      by rewrite Allgather_result_tracker by lia.
Qed.

End round.
End exchange.

Lemma length_concat_seq {B} (f : nat → list B) count start size :
  (∀ r, (start ≤ r < start + size)%nat → length (f r) = count) →
  length (concat (f <$> seq start size)) = (count * size)%nat.
Proof.
  revert start. induction size as [|size IH]; intros start Hlen; csimpl;
    [lia|].
  rewrite length_app, (IH (S start)) by (intros; apply Hlen; lia).
  rewrite Hlen by lia. lia.
Qed.

(** One iteration of the loop: three all-gather rounds. *)
Section iteration.
Context `{MPI.Constants}.
Variables (ns nt : nat).
Hypothesis solvers : (0 < ns)%nat.
Hypothesis trackers : (0 < nt)%nat.
Variables (remaining : nat) (slices buffers : nat → fields) (count : nat).
Hypothesis length_slices :
  ∀ r, (r < ns)%nat →
    length (velocity_x (slices r)) = count ∧
    length (velocity_y (slices r)) = count ∧
    length (velocity_z (slices r)) = count.
Hypothesis length_buffers :
  ∀ j, (j < nt)%nat →
    length (velocity_x (buffers j)) = (count * ns)%nat ∧
    length (velocity_y (buffers j)) = (count * ns)%nat ∧
    length (velocity_z (buffers j)) = (count * ns)%nat.

Local Abbreviation channel := (solver_channel ns nt).
Local Abbreviation solver_top r :=
  (solver_loop (Some channel) (slices r) remaining).
Local Abbreviation tracker_top v :=
  (tracker_loop (MPI.mirror channel) v remaining).

(** The worlds after the first and after the second transfer. *)
Local Abbreviation world_x :=
  (world_of (ns + nt)
     (by_role ns
        (λ r, Allgather channel (velocity_y (slices r)) empty_data
                (λ _, Allgather channel (velocity_z (slices r)) empty_data
                        (λ _, solver_top r)))
        (λ j, Allgather (MPI.mirror channel) empty_data
                (velocity_y (buffers j))
                (λ y, Allgather (MPI.mirror channel) empty_data
                        (velocity_z (buffers j))
                        (λ z, tracker_top
                                {| velocity_x :=
                                     full_field ns velocity_x slices;
                                   velocity_y := y;
                                   velocity_z := z |}))))).

Local Abbreviation world_y :=
  (world_of (ns + nt)
     (by_role ns
        (λ r, Allgather channel (velocity_z (slices r)) empty_data
                (λ _, solver_top r))
        (λ j, Allgather (MPI.mirror channel) empty_data
                (velocity_z (buffers j))
                (λ z, tracker_top
                        {| velocity_x := full_field ns velocity_x slices;
                           velocity_y := full_field ns velocity_y slices;
                           velocity_z := z |})))).

Lemma step_iteration_x :
  step (iteration_world ns nt (S remaining) slices buffers) = Some world_x.
Proof.
  exact (step_gathering ns nt solvers trackers
           (λ r, velocity_x (slices r)) (λ j, velocity_x (buffers j))
           (λ r _, Allgather channel (velocity_y (slices r)) empty_data
                     (λ _, Allgather channel (velocity_z (slices r))
                             empty_data (λ _, solver_top r)))
           (λ j x, Allgather (MPI.mirror channel) empty_data
                     (velocity_y (buffers j))
                     (λ y, Allgather (MPI.mirror channel) empty_data
                             (velocity_z (buffers j))
                             (λ z, tracker_top
                                     {| velocity_x := x; velocity_y := y;
                                        velocity_z := z |})))
           count
           (λ r Hr, proj1 (length_slices r Hr))
           (λ j Hj, proj1 (length_buffers j Hj))).
Qed.

Lemma step_iteration_y : step world_x = Some world_y.
Proof.
  exact (step_gathering ns nt solvers trackers
           (λ r, velocity_y (slices r)) (λ j, velocity_y (buffers j))
           (λ r _, Allgather channel (velocity_z (slices r)) empty_data
                     (λ _, solver_top r))
           (λ j y, Allgather (MPI.mirror channel) empty_data
                     (velocity_z (buffers j))
                     (λ z, tracker_top
                             {| velocity_x :=
                                  full_field ns velocity_x slices;
                                velocity_y := y; velocity_z := z |}))
           count
           (λ r Hr, proj1 (proj2 (length_slices r Hr)))
           (λ j Hj, proj1 (proj2 (length_buffers j Hj)))).
Qed.

Lemma step_iteration_z :
  step world_y
  = Some (iteration_world ns nt remaining slices
            (λ _, gathered ns slices)).
Proof.
  exact (step_gathering ns nt solvers trackers
           (λ r, velocity_z (slices r)) (λ j, velocity_z (buffers j))
           (λ r _, solver_top r)
           (λ j z, tracker_top
                     {| velocity_x := full_field ns velocity_x slices;
                        velocity_y := full_field ns velocity_y slices;
                        velocity_z := z |})
           count
           (λ r Hr, proj2 (proj2 (length_slices r Hr)))
           (λ j Hj, proj2 (proj2 (length_buffers j Hj)))).
Qed.


End iteration.

Section whole_loop.
Context `{MPI.Constants}.
Variables (ns nt : nat).
Hypothesis solvers : (0 < ns)%nat.
Hypothesis trackers : (0 < nt)%nat.

Lemma run_add {A} (a b : nat) (w : list (proc A)) :
  run (a + b) w = run a w ≫= run b.
Proof.
  revert w. induction a as [|a IH]; intros w; simpl; [done|].
  destruct (step w) as [w'|]; simpl; [apply IH|done].
Qed.

Lemma run_iteration remaining slices buffers count :
  (∀ r, (r < ns)%nat →
     length (velocity_x (slices r)) = count ∧
     length (velocity_y (slices r)) = count ∧
     length (velocity_z (slices r)) = count) →
  (∀ j, (j < nt)%nat →
     length (velocity_x (buffers j)) = (count * ns)%nat ∧
     length (velocity_y (buffers j)) = (count * ns)%nat ∧
     length (velocity_z (buffers j)) = (count * ns)%nat) →
  run 3 (iteration_world ns nt (S remaining) slices buffers)
  = Some (iteration_world ns nt remaining slices (λ _, gathered ns slices)).
Proof.
  intros Hslices Hbuffers. cbn [run].
  erewrite step_iteration_x by done. cbn [mbind option_bind].
  erewrite step_iteration_y by done. cbn [mbind option_bind].
  erewrite step_iteration_z by done. done.
Qed.

Lemma length_gathered slices count :
  (∀ r, (r < ns)%nat →
     length (velocity_x (slices r)) = count ∧
     length (velocity_y (slices r)) = count ∧
     length (velocity_z (slices r)) = count) →
  length (velocity_x (gathered ns slices)) = (count * ns)%nat ∧
  length (velocity_y (gathered ns slices)) = (count * ns)%nat ∧
  length (velocity_z (gathered ns slices)) = (count * ns)%nat.
Proof.
  intros Hslices. simpl. unfold full_field.
  split_and!; apply length_concat_seq; intros r Hr; apply Hslices; lia.
Qed.

(** All the iterations of the loop. *)
Lemma run_iterations number_iterations slices buffers count :
  (∀ r, (r < ns)%nat →
     length (velocity_x (slices r)) = count ∧
     length (velocity_y (slices r)) = count ∧
     length (velocity_z (slices r)) = count) →
  (∀ j, (j < nt)%nat →
     length (velocity_x (buffers j)) = (count * ns)%nat ∧
     length (velocity_y (buffers j)) = (count * ns)%nat ∧
     length (velocity_z (buffers j)) = (count * ns)%nat) →
  run (3 * number_iterations)
    (iteration_world ns nt number_iterations slices buffers)
  = Some (iteration_world ns nt 0 slices
            (match number_iterations with
             | O => buffers
             | S _ => λ _, gathered ns slices
             end)).
Proof.
  intros Hslices. revert buffers.
  induction number_iterations as [|remaining IH]; intros buffers Hbuffers;
    [done|].
  replace (3 * S remaining)%nat with (3 + 3 * remaining)%nat by lia.
  rewrite run_add, (run_iteration _ _ _ count) by done.
  cbn [mbind option_bind]. rewrite IH.
  - by destruct remaining.
  - intros j _. by apply length_gathered.
Qed.

End whole_loop.

Lemma configure_solver_0 application_rank application_size
    number_grid_points :
  configure_solver application_rank application_size number_grid_points = 0
  → 0 < number_grid_points ∧
    number_grid_points `mod` application_size = 0.
Proof. unfold configure_solver. repeat case_decide; lia. Qed.

Lemma grid_per_rank_count (ns : nat) (number_grid_points : Z) :
  (0 < ns)%nat → 0 < number_grid_points →
  number_grid_points `mod` Z.of_nat ns = 0 →
  0 ≤ number_grid_points `div` Z.of_nat ns ∧
  Z.to_nat number_grid_points
  = (Z.to_nat (number_grid_points `div` Z.of_nat ns) * ns)%nat.
Proof.
  intros Hns Hgrid Hmod.
  assert (0 ≤ number_grid_points `div` Z.of_nat ns) by (apply Z.div_pos; lia).
  split; [done|].
  rewrite (Z.div_mod number_grid_points (Z.of_nat ns)) at 1 by lia.
  rewrite Hmod, Z.add_0_r, Z2Nat.inj_mul, Nat2Z.id by lia. lia.
Qed.

Lemma world_at_loop_iteration `{MPI.Constants} (ns nt : nat)
    (number_iterations number_grid_points : Z) :
  (0 < ns)%nat →
  configure_solver 0 (Z.of_nat ns) number_grid_points = 0 →
  world_at_loop ns nt number_iterations number_grid_points
    number_iterations number_grid_points
  = iteration_world ns nt (Z.to_nat number_iterations)
      (λ r, allocated
              (replicate
                 (Z.to_nat (number_grid_points `div` Z.of_nat ns))
                 (Z.of_nat r)))
      (λ _, allocated (replicate (Z.to_nat number_grid_points) 0)).
Proof.
  intros Hns [Hgrid Hmod]%configure_solver_0.
  destruct (grid_per_rank_count ns number_grid_points) as [Hdiv _];
    [done..|].
  apply world_of_ext. intros r _. unfold by_role.
  destruct (decide (r < ns)%nat).
  - unfold solver_run, np_ones_times. by rewrite decide_True.
  - unfold tracker_run, np_empty. by rewrite decide_True by lia.
Qed.

(** C7: in a coupled run whose two roles started up and were given the
    same grid size and iteration count, the loop starts after the three
    rounds of the handshake with slices of grid-points/solver-size
    elements on the solver ranks.  Every iteration is exactly three
    all-gather rounds in a row: the solver ranks send their X, then Y,
    then Z slice and receive into an empty buffer, the tracker ranks send
    an empty buffer and receive into their X, then Y, then Z array, and
    after the third round every tracker rank holds, for each component,
    the slices of the solver ranks one after the other in rank order.
    The run ends after three rounds per iteration with every process
    finished. *)
Theorem exchange_three_allgathers `{MPI.Constants} (ns nt : nat)
    (slabel tlabel : string)
    (number_iterations number_grid_points number_particles : Z) :
  slabel ≠ tlabel → (0 < ns)%nat → (0 < nt)%nat →
  configure_solver 0 (Z.of_nat ns) number_grid_points = 0 →
  configure_tracker 0 (Z.of_nat nt) number_particles = 0 →
  let universe :=
    coupled ns nt (solver_py slabel number_iterations number_grid_points)
      (tracker_py tlabel number_iterations number_grid_points
         number_particles) in
  let grid_per_rank := Z.to_nat (number_grid_points `div` Z.of_nat ns) in
  let slice r := allocated (replicate grid_per_rank (Z.of_nat r)) in
  let buffer (j : nat) :=
    allocated (replicate (Z.to_nat number_grid_points) 0) in
  Z.of_nat grid_per_rank = number_grid_points `div` Z.of_nat ns ∧
  run 3 (launch universe)
  = Some (iteration_world ns nt (Z.to_nat number_iterations) slice buffer) ∧
  (∀ remaining (slices buffers : nat → fields) count,
     (∀ r, (r < ns)%nat →
        length (velocity_x (slices r)) = count ∧
        length (velocity_y (slices r)) = count ∧
        length (velocity_z (slices r)) = count) →
     (∀ j, (j < nt)%nat →
        length (velocity_x (buffers j)) = (count * ns)%nat ∧
        length (velocity_y (buffers j)) = (count * ns)%nat ∧
        length (velocity_z (buffers j)) = (count * ns)%nat) →
     let w := iteration_world ns nt (S remaining) slices buffers in
     ∃ wx wy,
       step w = Some wx ∧ step wx = Some wy ∧
       step wy
       = Some (iteration_world ns nt remaining slices
                 (λ _, gathered ns slices)) ∧
       (∀ r, (r < ns)%nat →
          pending_Allgather <$> w !! r
          = Some (Some (velocity_x (slices r), empty_data)) ∧
          pending_Allgather <$> wx !! r
          = Some (Some (velocity_y (slices r), empty_data)) ∧
          pending_Allgather <$> wy !! r
          = Some (Some (velocity_z (slices r), empty_data))) ∧
       (∀ j, (j < nt)%nat →
          pending_Allgather <$> w !! (ns + j)%nat
          = Some (Some (empty_data, velocity_x (buffers j))) ∧
          pending_Allgather <$> wx !! (ns + j)%nat
          = Some (Some (empty_data, velocity_y (buffers j))) ∧
          pending_Allgather <$> wy !! (ns + j)%nat
          = Some (Some (empty_data, velocity_z (buffers j))))) ∧
  run (3 + 3 * Z.to_nat number_iterations) (launch universe)
  = Some (world_of (ns + nt)
            (by_role ns (λ r, Ret (slice r))
               (λ j, Ret (match Z.to_nat number_iterations with
                          | O => buffer j
                          | S _ => gathered ns slice
                          end)))).
Proof.
  intros Hlabels Hns Hnt Hsolver Htracker universe grid_per_rank slice
    buffer.
  destruct (configure_solver_0 _ _ _ Hsolver) as [Hgrid Hmod].
  destruct (grid_per_rank_count ns number_grid_points) as [Hdiv Hcount];
    [done..|].
  assert (Hstart :
    run 3 (launch universe)
    = Some (iteration_world ns nt (Z.to_nat number_iterations) slice
              buffer)).
  { cbn [run]. unfold universe.
    rewrite step_launch by done. rewrite bool_decide_eq_false_2 by lia.
    cbn [mbind option_bind]. rewrite step_world1 by done.
    cbn [mbind option_bind]. rewrite step_world2 by done.
    rewrite bool_decide_eq_false_2 by lia. cbn [mbind option_bind].
    by rewrite world_at_loop_iteration. }
  split_and!.
  - unfold grid_per_rank. by rewrite Z2Nat.id.
  - done.
  - intros remaining slices buffers count Hslices Hbuffers w.
    eexists _, _. split_and!.
    + by eapply step_iteration_x.
    + by eapply step_iteration_y.
    + by eapply step_iteration_z.
    + intros r Hr. unfold w, iteration_world.
      rewrite !lookup_world_of, !by_role_solver by lia. done.
    + intros j Hj. unfold w, iteration_world.
      rewrite !lookup_world_of, !by_role_tracker by lia.
      replace (ns + j - ns)%nat with j by lia. done.
  - rewrite run_add, Hstart. cbn [mbind option_bind].
    rewrite (run_iterations ns nt Hns Hnt _ _ _ grid_per_rank).
    + f_equal. apply world_of_ext. intros r _. unfold by_role.
      destruct (decide (r < ns)%nat); [done|].
      by destruct (Z.to_nat number_iterations).
    + intros r _. simpl. by rewrite length_replicate.
    + intros j _. simpl. rewrite length_replicate. done.
Qed.

Lemma exchange_three_allgathers_witness :
  run (H := MPICH) 9
    (launch (H := MPICH)
       (coupled 2 2 (solver_py "solver.py" 2 4)
          (tracker_py "tracker.py" 2 4 6)))
  = Some [Ret (allocated [0; 0]); Ret (allocated [1; 1]);
          Ret (allocated [0; 0; 1; 1]); Ret (allocated [0; 0; 1; 1])].
Proof.
  refine (proj2 (proj2 (proj2
    (exchange_three_allgathers (H := MPICH) 2 2 "solver.py" "tracker.py"
       2 4 6 _ _ _ _ _)))).
  - intros Heq. discriminate Heq.
  - lia.
  - lia.
  - reflexivity.
  - reflexivity.
Defined.

(** * Further properties of the programs *)

(** ** Validation and allocation *)

(** X1: for a group of at least one rank, [configure_solver] returns 0 or
    1, and 0 exactly for a positive grid size that the group size divides;
    the slices of [number_grid_points // application_size] elements then
    have at least one element each and tile the grid exactly. *)
Theorem configure_solver_validates (application_rank application_size
    number_grid_points : Z) :
  0 < application_size →
  (configure_solver application_rank application_size number_grid_points
   = 0 ∨
   configure_solver application_rank application_size number_grid_points
   = 1) ∧
  (configure_solver application_rank application_size number_grid_points
   = 0 ↔
   0 < number_grid_points ∧
   number_grid_points `mod` application_size = 0) ∧
  (configure_solver application_rank application_size number_grid_points
   = 0 →
   let grid_per_rank := number_grid_points `div` application_size in
   1 ≤ grid_per_rank ∧
   grid_per_rank * application_size = number_grid_points).
Proof.
  intros Hsize. split_and!.
  - apply configure_solver_cases.
  - split; [apply configure_solver_0|].
    unfold configure_solver. intros [? ?]. repeat case_decide; lia.
  - intros [Hgrid Hmod]%configure_solver_0 grid_per_rank.
    assert (Htile : grid_per_rank * application_size = number_grid_points).
    { unfold grid_per_rank.
      rewrite (Z.div_mod number_grid_points application_size) at 2 by lia.
      lia. }
    split; [nia|done].
Qed.

Lemma configure_solver_validates_witness :
  1 ≤ 12 `div` 4 ∧ 12 `div` 4 * 4 = 12.
Proof.
  refine (proj2 (proj2 (configure_solver_validates 2 4 12 _)) _).
  - lia.
  - reflexivity.
Defined.

(** ** The directed broadcast *)

(** X2: [send_value] only matters on the root.  On the receiving side the
    call does not depend on [send_value] nor on [local_rank], and on a
    sending rank other than [local_root] it does not depend on
    [send_value]. *)
Theorem intercomm_broadcast_send_value_unused `{MPI.Constants}
    (intercomm : MPI.Intercomm) (send_value send_value' : Z)
    (local_rank local_rank' local_root : Z) :
  intercomm_broadcast intercomm send_value local_rank local_root false
  = intercomm_broadcast intercomm send_value' local_rank' local_root false ∧
  (local_rank ≠ local_root →
   intercomm_broadcast intercomm send_value local_rank local_root true
   = intercomm_broadcast intercomm send_value' local_rank local_root true).
Proof.
  split; [done|]. intros Hrank.
  by rewrite !intercomm_broadcast_unfold, !sending_args_passive.
Qed.

Lemma intercomm_broadcast_send_value_unused_witness :
  intercomm_broadcast (H := MPICH) sending_3 5 2 1 true
  = intercomm_broadcast (H := MPICH) sending_3 7 2 1 true.
Proof.
  refine (proj2 (intercomm_broadcast_send_value_unused (H := MPICH)
                   sending_3 5 7 2 2 1) _).
  lia.
Defined.

(** ** Group partitioning *)

(** X3: the local rank and the group returned by [partition_by_string] fit
    together: a process's local rank is below the size of its group, the
    member of the group at that position is the process itself, and the
    size of the group is the number of ranks of the universe that carry
    the process's label. *)
Theorem partition_by_string_local_rank (universe : list string)
    (rank : nat) (c : string) :
  universe !! rank = Some c →
  ∃ comm local_rank,
    partition_by_string universe rank = Some comm ∧
    MPI.Get_rank comm rank = Some local_rank ∧
    (local_rank < MPI.Get_size comm)%nat ∧
    MPI.group comm !! local_rank = Some rank ∧
    MPI.Get_size comm
    = length (filter (λ q, universe !! q = Some c)
                (seq 0 (length universe))).
Proof.
  intros Hc. pose proof (lookup_lt_Some _ _ _ Hc) as Hrank.
  eexists _, _. split; [by apply partition_by_string_Some|].
  pose proof (Get_rank_filter_seq (λ q, universe !! q = Some c) 1
                (length universe) rank Hrank Hc) as Hget.
  split; [exact Hget|].
  unfold MPI.Get_rank in Hget. simpl in Hget.
  apply fmap_Some in Hget as ([i x] & Hfind & Hi). simpl in Hi. subst i.
  apply list_find_Some in Hfind as (Hlookup & <- & _).
  split_and!; [|done|done].
  unfold MPI.Get_size. simpl. by eapply lookup_lt_Some.
Qed.

Lemma partition_by_string_local_rank_witness :
  ∃ comm local_rank,
    partition_by_string S_T_universe 3 = Some comm ∧
    MPI.Get_rank comm 3 = Some local_rank ∧
    (local_rank < MPI.Get_size comm)%nat ∧
    MPI.group comm !! local_rank = Some 3%nat ∧
    MPI.Get_size comm
    = length (filter (λ q, S_T_universe !! q = Some "T"%string)
                (seq 0 (length S_T_universe))).
Proof.
  exact (partition_by_string_local_rank S_T_universe 3 "T" eq_refl).
Defined.

(** ** The outcome of the handshake *)



(** ** A role started alone *)

Section one_label.
Context `{MPI.Constants}.

Lemma partition_one_label (labels : list string) (label : string) r :
  (∀ q, (q < length labels)%nat → labels !! q = Some label) →
  (r < length labels)%nat →
  partition_by_string labels r
  = Some {| MPI.context := 1; MPI.group := seq 0 (length labels) |}.
Proof.
  intros Hlabel Hr. rewrite (partition_by_string_Some _ _ label) by auto.
  do 2 f_equal. apply filter_all, Forall_forall.
  intros q ?%elem_of_seq. apply Hlabel. lia.
Qed.

Lemma Compare_whole_world size :
  MPI.Compare {| MPI.context := 1; MPI.group := seq 0 size |}
    (MPI.COMM_WORLD size) = MPI.CONGRUENT.
Proof. unfold MPI.Compare. simpl. repeat case_decide; done. Qed.

Lemma solver_loop_uncoupled v number_iterations :
  solver_loop None v number_iterations = Ret v.
Proof.
  induction number_iterations as [|remaining IH]; [done|]. simpl.
  exact IH.
Qed.

Lemma solver_started_alone size r number_iterations number_grid_points :
  (0 < size)%nat →
  configure_solver 0 (Z.of_nat size) number_grid_points = 0 →
  solver_started {| MPI.context := 1; MPI.group := seq 0 size |} size
    (Z.of_nat r) (Z.of_nat size) number_iterations number_grid_points
  = Ret (allocated
           (replicate (Z.to_nat (number_grid_points `div` Z.of_nat size))
              (Z.of_nat r))).
Proof.
  intros Hsize [Hgrid Hmod]%configure_solver_0.
  destruct (grid_per_rank_count size number_grid_points) as [Hdiv _];
    [done..|].
  unfold solver_started, solver_coupling.
  rewrite Compare_whole_world. simpl.
  unfold solver_run, np_ones_times. rewrite decide_True by done.
  apply solver_loop_uncoupled.
Qed.

Lemma solver_alone_unfold size slabel r number_iterations
    number_grid_points :
  (r < size)%nat →
  solver (replicate size slabel) r number_iterations number_grid_points
  = World_bcast (configure_solver 0 (Z.of_nat size) number_grid_points) 0
      (λ _, if bool_decide
                 (configure_solver 0 (Z.of_nat size) number_grid_points > 0)
            then Exit 1
            else solver_started
                   {| MPI.context := 1; MPI.group := seq 0 size |} size
                   (Z.of_nat r) (Z.of_nat size) number_iterations
                   number_grid_points).
Proof.
  intros Hr. unfold solver.
  rewrite (partition_one_label _ slabel), length_replicate.
  - rewrite Get_rank_seq by lia. unfold MPI.Get_size. simpl MPI.group.
    by rewrite length_seq, Nat.sub_0_r.
  - intros q Hq. rewrite length_replicate in Hq.
    by apply lookup_replicate_2.
  - by rewrite length_replicate.
Qed.

End one_label.

(** X5: a solver started without a tracker finds its group congruent to
    the world, so that [coupled_flag] is false.  Between the partition of
    the universe and [MPI.Finalize] its only communication is then the
    world broadcast of its own error count: once that is through, every
    rank has either exited with status 1 (grid size not valid) or gone
    through all its iterations without creating a channel or exchanging
    anything, holding its slice. *)
Theorem solver_alone `{MPI.Constants} (size : nat) (slabel : string)
    (number_iterations number_grid_points : Z) (fuel : nat) :
  (0 < size)%nat →
  let universe :=
    replicate size (solver_py slabel number_iterations number_grid_points) in
  let count := configure_solver 0 (Z.of_nat size) number_grid_points in
  let grid_per_rank :=
    Z.to_nat (number_grid_points `div` Z.of_nat size) in
  (∀ r, (r < size)%nat → ∃ application_comm,
     partition_by_string (argv0_of <$> universe) r = Some application_comm ∧
     MPI.Compare application_comm (MPI.COMM_WORLD size) = MPI.CONGRUENT) ∧
  Forall (in_world_bcast 0) (launch universe) ∧
  World_bcast_result (launch universe) 0 = Some count ∧
  history (S fuel) (launch universe)
  = [launch universe;
     world_of size
       (λ r, if bool_decide (count > 0) then Exit 1
             else Ret (allocated (replicate grid_per_rank (Z.of_nat r))))].
Proof.
  intros Hsize universe count grid_per_rank.
  assert (Hlaunch :
    launch universe
    = world_of size
        (λ r, World_bcast count 0
                (λ _, if bool_decide (count > 0) then Exit 1
                      else solver_started
                             {| MPI.context := 1; MPI.group := seq 0 size |}
                             size (Z.of_nat r) (Z.of_nat size)
                             number_iterations number_grid_points))).
  { apply list_eq. intros r. unfold launch, universe.
    rewrite list_lookup_imap.
    destruct (decide (r < size)%nat).
    - rewrite lookup_replicate_2, lookup_world_of by done.
      unfold start. simpl. rewrite fmap_replicate. simpl.
      by rewrite solver_alone_unfold.
    - rewrite !lookup_ge_None_2; [done| |].
      + rewrite length_world_of. lia.
      + rewrite length_replicate. lia. }
  assert (Hentered : Forall (in_world_bcast 0) (launch universe)).
  { rewrite Hlaunch. by apply Forall_world_of. }
  assert (Hresult : World_bcast_result (launch universe) 0 = Some count).
  { unfold World_bcast_result. rewrite option_guard_True by done.
    rewrite option_guard_True by done. simpl.
    rewrite Hlaunch, lookup_world_of by lia. done. }
  split_and!; [|done..|].
  { intros r Hr. unfold universe. rewrite fmap_replicate. simpl.
    eexists. split.
    - rewrite (partition_one_label _ slabel), length_replicate.
      + done.
      + intros q Hq. rewrite length_replicate in Hq.
        by apply lookup_replicate_2.
      + by rewrite length_replicate.
    - apply Compare_whole_world. }
  rewrite history_S. rewrite Hlaunch in *.
  erewrite (step_world_of _ _
    (λ r, if bool_decide (count > 0) then Exit 1
          else Ret (allocated (replicate grid_per_rank (Z.of_nat r))))
    0%nat); [|lia|done|].
  - rewrite history_finished; [done|].
    apply Forall_world_of. intros r _. by destruct (bool_decide _).
  - intros r Hr. cbn [reply]. rewrite Hresult. simpl.
    case_bool_decide as Hcount; [done|].
    rewrite solver_started_alone; [done..|].
    destruct (configure_solver_cases 0 (Z.of_nat size) number_grid_points);
      unfold count in *; lia.
Qed.

Lemma solver_alone_witness :
  history (H := MPICH) 4
    (launch (H := MPICH) (replicate 2 (solver_py "solver.py" 3 4)))
  = [launch (H := MPICH) (replicate 2 (solver_py "solver.py" 3 4));
     [Ret (allocated [0; 0]); Ret (allocated [1; 1])]].
Proof.
  refine (proj2 (proj2 (proj2
    (solver_alone (H := MPICH) 2 "solver.py" 3 4 3 _)))).
  lia.
Defined.

(** ** Rounds between two groups *)

Section two_groups.
Context `{MPI.Constants} {A : Type}.
Variables (ns nt : nat).
Hypothesis first_group : (0 < ns)%nat.
Hypothesis second_group : (0 < nt)%nat.

Local Abbreviation channel := (solver_channel ns nt).

(** The creation of the channel by two groups that name each other's
    leader. *)
Section creating.
Variables (ks kt : nat → MPI.Intercomm → proc A).

Local Abbreviation creating :=
  (world_of (ns + nt)
     (by_role ns
        (λ r, Create_intercomm (solver_group ns) 0 (Z.of_nat ns) (ks r))
        (λ j, Create_intercomm (tracker_group ns nt) 0 0 (kt j)))).

Lemma lookup_creating_first r :
  (r < ns)%nat →
  creating !! r
  = Some (Create_intercomm (solver_group ns) 0 (Z.of_nat ns) (ks r)).
Proof. intros. by rewrite lookup_world_of, by_role_solver by lia. Qed.

Lemma lookup_creating_second r :
  (ns ≤ r < ns + nt)%nat →
  creating !! r
  = Some (Create_intercomm (tracker_group ns nt) 0 0 (kt (r - ns)%nat)).
Proof. intros. by rewrite lookup_world_of, by_role_tracker by lia. Qed.

Lemma creating_entered :
  Forall (in_create_intercomm (solver_group ns) 0 (Z.of_nat ns) creating)
    (seq 0 ns) ∧
  Forall (in_create_intercomm (tracker_group ns nt) 0 0 creating)
    (seq ns nt).
Proof.
  split; apply Forall_forall; intros q ?%elem_of_seq;
    unfold in_create_intercomm.
  - by rewrite lookup_creating_first by lia.
  - by rewrite lookup_creating_second by lia.
Qed.

Lemma step_creating :
  step creating
  = Some (world_of (ns + nt)
            (by_role ns (λ r, ks r channel)
               (λ j, kt j (MPI.mirror channel)))).
Proof.
  destruct creating_entered.
  assert (Forall (λ q, q ∉ seq ns nt) (seq 0 ns)).
  { apply Forall_forall. intros q ?%elem_of_seq ?%elem_of_seq. lia. }
  assert (Forall (λ q, q ∉ seq 0 ns) (seq ns nt)).
  { apply Forall_forall. intros q ?%elem_of_seq ?%elem_of_seq. lia. }
  apply (step_world_of _ _ _ 0%nat); [lia| |].
  - by rewrite by_role_solver.
  - intros r Hr. destruct (decide (r < ns)%nat).
    + rewrite !(by_role_solver _ _ _ r) by done. cbn [reply].
      unfold Create_intercomm_result.
      rewrite option_guard_True by lia. simpl.
      rewrite lookup_seq_lt by lia. simpl.
      rewrite Nat2Z.id, lookup_creating_second by lia. simpl.
      rewrite option_guard_True.
      2:{ split_and!; [lia| |done]. apply lookup_seq. lia. }
      rewrite option_guard_True by done.
      by rewrite option_guard_True.
    + rewrite !(by_role_tracker _ _ _ r) by lia. cbn [reply].
      unfold Create_intercomm_result.
      rewrite option_guard_True by lia. simpl.
      rewrite lookup_seq_lt by lia. simpl.
      rewrite lookup_creating_first by lia. simpl.
      rewrite option_guard_True.
      2:{ split_and!; [lia| |f_equal; lia]. apply lookup_seq. lia. }
      rewrite option_guard_True by done.
      by rewrite option_guard_True.
Qed.

End creating.

(** A round in which every rank of both groups is in a broadcast over the
    channel. *)
Section in_broadcast.
Variables (obj1 obj2 : nat → option Z) (root1 root2 : nat → Z).
Variables (ks kt : nat → option Z → proc A).

Local Abbreviation in_broadcast :=
  (world_of (ns + nt)
     (by_role ns (λ r, Intercomm_bcast channel (obj1 r) (root1 r) (ks r))
        (λ j, Intercomm_bcast (MPI.mirror channel) (obj2 j) (root2 j)
                (kt j)))).

Lemma lookup_in_broadcast_first r :
  (r < ns)%nat →
  in_broadcast !! r
  = Some (Intercomm_bcast channel (obj1 r) (root1 r) (ks r)).
Proof. intros. by rewrite lookup_world_of, by_role_solver by lia. Qed.

Lemma lookup_in_broadcast_second r :
  (ns ≤ r < ns + nt)%nat →
  in_broadcast !! r
  = Some (Intercomm_bcast (MPI.mirror channel) (obj2 (r - ns)%nat)
            (root2 (r - ns)%nat) (kt (r - ns)%nat)).
Proof. intros. by rewrite lookup_world_of, by_role_tracker by lia. Qed.

Lemma in_broadcast_entered :
  all_entered in_intercomm_bcast channel in_broadcast ∧
  all_entered in_intercomm_bcast (MPI.mirror channel) in_broadcast.
Proof.
  assert (all_entered in_intercomm_bcast channel in_broadcast) as [? ?].
  { split; apply Forall_forall; simpl; intros q ?%elem_of_seq;
      unfold in_intercomm_bcast.
    - by rewrite lookup_in_broadcast_first by lia.
    - by rewrite lookup_in_broadcast_second by lia. }
  by repeat split.
Qed.

(** The round completes when every rank gets a result. *)
Lemma step_in_broadcast (result1 result2 : nat → option Z) :
  (∀ r, (r < ns)%nat →
     Intercomm_bcast_result in_broadcast channel (root1 r)
     = Some (result1 r)) →
  (∀ j, (j < nt)%nat →
     Intercomm_bcast_result in_broadcast (MPI.mirror channel) (root2 j)
     = Some (result2 j)) →
  step in_broadcast
  = Some (world_of (ns + nt)
            (by_role ns (λ r, ks r (result1 r))
               (λ j, kt j (result2 j)))).
Proof.
  intros Hfirst Hsecond.
  apply (step_world_of _ _ _ 0%nat); [lia| |].
  - by rewrite by_role_solver.
  - intros r Hr. destruct (decide (r < ns)%nat).
    + rewrite !(by_role_solver _ _ _ r) by done. cbn [reply].
      by rewrite Hfirst.
    + rewrite !(by_role_tracker _ _ _ r) by lia. cbn [reply].
      by rewrite Hsecond by lia.
Qed.

End in_broadcast.

(** A round in which every rank of both groups is in a barrier over the
    channel. *)
Section in_barrier.
Variables (ks kt : nat → unit → proc A).

Local Abbreviation at_barrier :=
  (world_of (ns + nt)
     (by_role ns (λ r, Barrier channel (ks r))
        (λ j, Barrier (MPI.mirror channel) (kt j)))).

Lemma at_barrier_entered :
  all_entered in_Barrier channel at_barrier ∧
  all_entered in_Barrier (MPI.mirror channel) at_barrier.
Proof.
  assert (all_entered in_Barrier channel at_barrier) as [? ?].
  { split; apply Forall_forall; simpl; intros q ?%elem_of_seq;
      unfold in_Barrier.
    - by rewrite lookup_world_of, by_role_solver by lia.
    - by rewrite lookup_world_of, by_role_tracker by lia. }
  by repeat split.
Qed.

Lemma step_barrier :
  step at_barrier
  = Some (world_of (ns + nt) (by_role ns (λ r, ks r ()) (λ j, kt j ()))).
Proof.
  destruct at_barrier_entered.
  apply (step_world_of _ _ _ 0%nat); [lia| |].
  - by rewrite by_role_solver.
  - intros r Hr. destruct (decide (r < ns)%nat).
    + rewrite !(by_role_solver _ _ _ r) by done. cbn [reply].
      unfold Barrier_result. by rewrite option_guard_True.
    + rewrite !(by_role_tracker _ _ _ r) by lia. cbn [reply].
      unfold Barrier_result. by rewrite option_guard_True.
Qed.

End in_barrier.
End two_groups.

(** A directed broadcast between the two groups, each rank going on with
    its own continuation. *)
Section directed_rounds.
Context `{MPI.Constants} {A : Type}.
Variables (ns nt : nat).
Hypothesis first_group : (0 < ns)%nat.
Hypothesis second_group : (0 < nt)%nat.
Variables (send1 send2 : nat → Z) (local_root : Z).
Variables (ks kt : nat → option Z → proc A).

Local Abbreviation channel := (solver_channel ns nt).

(** The first group sends. *)
Local Abbreviation first_sending :=
  (world_of (ns + nt)
     (by_role ns
        (λ r, intercomm_broadcast channel (send1 r) (Z.of_nat r)
                local_root true ≫= ks r)
        (λ j, intercomm_broadcast (MPI.mirror channel) (send2 j)
                (Z.of_nat j) local_root false ≫= kt j))).

(** The second group sends. *)
Local Abbreviation second_sending :=
  (world_of (ns + nt)
     (by_role ns
        (λ r, intercomm_broadcast channel (send1 r) (Z.of_nat r)
                local_root false ≫= ks r)
        (λ j, intercomm_broadcast (MPI.mirror channel) (send2 j)
                (Z.of_nat j) local_root true ≫= kt j))).

Lemma first_sending_unfold :
  first_sending
  = world_of (ns + nt)
      (by_role ns
         (λ r, Intercomm_bcast channel
                 (intercomm_broadcast_args (send1 r) (Z.of_nat r)
                    local_root true).1
                 (intercomm_broadcast_args (send1 r) (Z.of_nat r)
                    local_root true).2
                 (ks r))
         (λ j, Intercomm_bcast (MPI.mirror channel) None local_root
                 (kt j))).
Proof.
  apply world_of_ext. intros r _. unfold by_role.
  destruct (decide (r < ns)%nat); [|done].
  by rewrite intercomm_broadcast_unfold.
Qed.

Lemma second_sending_unfold :
  second_sending
  = world_of (ns + nt)
      (by_role ns
         (λ r, Intercomm_bcast channel None local_root (ks r))
         (λ j, Intercomm_bcast (MPI.mirror channel)
                 (intercomm_broadcast_args (send2 j) (Z.of_nat j)
                    local_root true).1
                 (intercomm_broadcast_args (send2 j) (Z.of_nat j)
                    local_root true).2
                 (kt j))).
Proof.
  apply world_of_ext. intros r _. unfold by_role.
  destruct (decide (r < ns)%nat); [done|].
  by rewrite intercomm_broadcast_unfold.
Qed.

Lemma sending_args_opt_out send_value local_rank :
  (intercomm_broadcast_args send_value local_rank local_root true).2
  = MPI.ROOT ∨
  (intercomm_broadcast_args send_value local_rank local_root true).2
  = MPI.PROC_NULL.
Proof. unfold intercomm_broadcast_args. case_decide; auto. Qed.

Lemma step_first_sending :
  0 ≤ local_root < Z.of_nat ns →
  step first_sending
  = Some (world_of (ns + nt)
            (by_role ns (λ r, ks r None)
               (λ j, kt j (Some (send1 (Z.to_nat local_root)))))).
Proof.
  intros Hroot. rewrite first_sending_unfold.
  apply (step_in_broadcast ns nt first_group second_group _ _ _ _ _ _
           (λ _, None) (λ _, Some (send1 (Z.to_nat local_root)))).
  - intros r Hr. apply Intercomm_bcast_result_sending.
    + by apply in_broadcast_entered.
    + apply sending_args_opt_out.
  - intros j Hj.
    eapply (Intercomm_bcast_result_receiving _ _ _ (Z.to_nat local_root)).
    + by apply in_broadcast_entered.
    + lia.
    + simpl. apply lookup_seq. lia.
    + rewrite lookup_in_broadcast_first by lia.
      rewrite Z2Nat.id by lia. by rewrite sending_args_root.
Qed.

Lemma step_second_sending :
  0 ≤ local_root < Z.of_nat nt →
  step second_sending
  = Some (world_of (ns + nt)
            (by_role ns (λ r, ks r (Some (send2 (Z.to_nat local_root))))
               (λ j, kt j None))).
Proof.
  intros Hroot. rewrite second_sending_unfold.
  apply (step_in_broadcast ns nt first_group second_group _ _ _ _ _ _
           (λ _, Some (send2 (Z.to_nat local_root))) (λ _, None)).
  - intros r Hr.
    eapply (Intercomm_bcast_result_receiving _ _ _
              (ns + Z.to_nat local_root)).
    + by apply in_broadcast_entered.
    + lia.
    + simpl. apply lookup_seq. lia.
    + rewrite lookup_in_broadcast_second by lia.
      replace (ns + Z.to_nat local_root - ns)%nat
        with (Z.to_nat local_root) by lia.
      rewrite Z2Nat.id by lia. by rewrite sending_args_root.
  - intros j Hj. apply Intercomm_bcast_result_sending.
    + by apply in_broadcast_entered.
    + apply sending_args_opt_out.
Qed.

End directed_rounds.

Lemma run_step `{MPI.Constants} {A} rounds (w w' : list (proc A)) :
  step w = Some w' → run (S rounds) w = run rounds w'.
Proof. intros Hstep. cbn [run]. by rewrite Hstep. Qed.

(** A directed broadcast between two barriers before it and two after it,
    as [demonstrate_broadcast] repeats it. *)
Section blocks.
Context `{MPI.Constants} {A : Type}.
Variables (ns nt : nat).
Hypothesis first_group : (0 < ns)%nat.
Hypothesis second_group : (0 < nt)%nat.
Variables (send1 send2 : nat → Z) (local_root : Z).
Variables (ks kt : nat → option Z → proc A).

Local Abbreviation channel := (solver_channel ns nt).
Local Abbreviation closing intercomm k :=
  (λ value : option Z,
     Barrier intercomm (λ _, Barrier intercomm (λ _, k value))).
Local Abbreviation first_broadcast flag r :=
  (intercomm_broadcast channel (send1 r) (Z.of_nat r) local_root flag
   ≫= closing channel (ks r)).
Local Abbreviation second_broadcast flag j :=
  (intercomm_broadcast (MPI.mirror channel) (send2 j) (Z.of_nat j)
     local_root flag
   ≫= closing (MPI.mirror channel) (kt j)).
Local Abbreviation block flag1 flag2 :=
  (world_of (ns + nt)
     (by_role ns (λ r, Barrier channel (λ _, first_broadcast flag1 r))
        (λ j, Barrier (MPI.mirror channel)
                (λ _, second_broadcast flag2 j)))).

Lemma step_block_barrier flag1 flag2 :
  step (block flag1 flag2)
  = Some (world_of (ns + nt)
            (by_role ns (λ r, first_broadcast flag1 r)
               (λ j, second_broadcast flag2 j))).
Proof.
  exact (step_barrier ns nt first_group second_group
           (λ r _, first_broadcast flag1 r)
           (λ j _, second_broadcast flag2 j)).
Qed.

Lemma run_closing (result1 result2 : option Z) :
  run 2 (world_of (ns + nt)
           (by_role ns (λ r, closing channel (ks r) result1)
              (λ j, closing (MPI.mirror channel) (kt j) result2)))
  = Some (world_of (ns + nt)
            (by_role ns (λ r, ks r result1) (λ j, kt j result2))).
Proof.
  etrans.
  { apply run_step.
    exact (step_barrier ns nt first_group second_group
             (λ r _, Barrier channel (λ _, ks r result1))
             (λ j _, Barrier (MPI.mirror channel) (λ _, kt j result2))). }
  etrans.
  { apply run_step.
    exact (step_barrier ns nt first_group second_group
             (λ r _, ks r result1) (λ j _, kt j result2)). }
  done.
Qed.

Lemma run_first_sending_block :
  0 ≤ local_root < Z.of_nat ns →
  run 4 (block true false)
  = Some (world_of (ns + nt)
            (by_role ns (λ r, ks r None)
               (λ j, kt j (Some (send1 (Z.to_nat local_root)))))).
Proof.
  intros Hroot.
  etrans; [apply run_step, step_block_barrier|].
  etrans.
  { apply run_step.
    exact (step_first_sending ns nt first_group second_group send1 send2
             local_root (λ r, closing channel (ks r))
             (λ j, closing (MPI.mirror channel) (kt j)) Hroot). }
  apply run_closing.
Qed.

Lemma run_second_sending_block :
  0 ≤ local_root < Z.of_nat nt →
  run 4 (block false true)
  = Some (world_of (ns + nt)
            (by_role ns (λ r, ks r (Some (send2 (Z.to_nat local_root))))
               (λ j, kt j None))).
Proof.
  intros Hroot.
  etrans; [apply run_step, step_block_barrier|].
  etrans.
  { apply run_step.
    exact (step_second_sending ns nt first_group second_group send1 send2
             local_root (λ r, closing channel (ks r))
             (λ j, closing (MPI.mirror channel) (kt j)) Hroot). }
  apply run_closing.
Qed.

End blocks.

(** ** extended-collectives.py *)

Section halves.
Variable (world_size : nat).

Local Abbreviation half := (world_size `div` 2)%nat.
Local Abbreviation calls :=
  ((λ q, (group_index q world_size, q)) <$> seq 0 world_size).

Lemma half_le : (half ≤ world_size)%nat.
Proof. apply Nat.Div0.div_le_upper_bound. lia. Qed.

Lemma lookup_calls q :
  (q < world_size)%nat →
  calls !! q = Some (group_index q world_size, q).
Proof. intros. by rewrite list_lookup_fmap, lookup_seq_lt. Qed.

Lemma filter_seq_lower (P : nat → Prop) `{∀ x, Decision (P x)}
    (bound size : nat) :
  (bound ≤ size)%nat →
  (∀ q, (q < bound)%nat → P q) →
  (∀ q, (bound ≤ q < size)%nat → ¬ P q) →
  filter P (seq 0 size) = seq 0 bound.
Proof.
  intros Hbound Hlower Hupper.
  replace size with (bound + (size - bound))%nat by lia.
  rewrite seq_app, filter_app. simpl.
  rewrite <-(app_nil_r (seq 0 bound)) at 2. f_equal.
  - apply filter_all, Forall_forall. intros q ?%elem_of_seq.
    apply Hlower. lia.
  - apply filter_none, Forall_forall. intros q ?%elem_of_seq.
    apply Hupper. lia.
Qed.

Lemma filter_seq_upper (P : nat → Prop) `{∀ x, Decision (P x)}
    (bound size : nat) :
  (bound ≤ size)%nat →
  (∀ q, (q < bound)%nat → ¬ P q) →
  (∀ q, (bound ≤ q < size)%nat → P q) →
  filter P (seq 0 size) = seq bound (size - bound).
Proof.
  intros Hbound Hlower Hupper.
  replace size with (bound + (size - bound))%nat at 1 by lia.
  rewrite seq_app, filter_app. simpl.
  rewrite <-(app_nil_l (seq bound _)) at 2. f_equal.
  - apply filter_none, Forall_forall. intros q ?%elem_of_seq.
    apply Hlower. lia.
  - apply filter_all, Forall_forall. intros q ?%elem_of_seq.
    apply Hupper. lia.
Qed.

Lemma color_of_calls q :
  (q < world_size)%nat →
  MPI.color_of calls q
  = Some (if decide (q < half)%nat then 0%nat else 1%nat).
Proof.
  intros. unfold MPI.color_of. by rewrite lookup_calls.
Qed.

Lemma filter_first_half :
  filter (λ q, MPI.color_of calls q = Some 0%nat) (seq 0 (length calls))
  = seq 0 half.
Proof.
  pose proof half_le. rewrite length_fmap, length_seq.
  apply filter_seq_lower; [done| |]; intros q Hq;
    rewrite color_of_calls by lia.
  - by rewrite decide_True.
  - by rewrite decide_False by lia.
Qed.

Lemma filter_second_half :
  filter (λ q, MPI.color_of calls q = Some 1%nat) (seq 0 (length calls))
  = seq half (world_size - half).
Proof.
  pose proof half_le. rewrite length_fmap, length_seq.
  apply filter_seq_upper; [done| |]; intros q Hq;
    rewrite color_of_calls by lia.
  - by rewrite decide_True.
  - by rewrite decide_False by lia.
Qed.

Lemma our_comm_half world_rank :
  (world_rank < world_size)%nat →
  our_comm world_size world_rank
  = Some (if decide (world_rank < half)%nat then solver_group half
          else tracker_group half (world_size - half)).
Proof.
  intros Hrank. unfold our_comm.
  rewrite (Split_key_rank _ _ _
             (if decide (world_rank < half)%nat then 0%nat else 1%nat)).
  - case_decide.
    + by rewrite filter_first_half.
    + by rewrite filter_second_half.
  - intros q Hq. rewrite length_fmap, length_seq in Hq.
    unfold MPI.key_of. by rewrite lookup_calls.
  - by apply color_of_calls.
Qed.

End halves.



Section demonstration.
Context `{MPI.Constants}.
Variable (world_size : nat).
Hypothesis two_processes : (2 ≤ world_size)%nat.

Local Abbreviation half := (world_size `div` 2)%nat.
Local Abbreviation rest := (world_size - world_size `div` 2)%nat.
Local Abbreviation channel := (solver_channel half rest).

Lemma half_positive : (0 < half)%nat.
Proof. apply Nat.div_str_pos. lia. Qed.

Lemma rest_positive : (0 < rest)%nat.
Proof. pose proof (Nat.div_lt world_size 2). lia. Qed.

Lemma world_size_halves : world_size = (half + rest)%nat.
Proof. pose proof (half_le world_size). lia. Qed.

(** What is left of the demonstration after its first and after its
    second part, and the third broadcast with what follows it. *)
Local Abbreviation third_broadcast intercomm local_rank group_index value1
    value2 :=
  (value3 ← intercomm_broadcast intercomm (999 + 1) local_rank 1
              (bool_decide (group_index = 0%nat));
   _ ← intercomm_Barrier intercomm;
   _ ← intercomm_Barrier intercomm;
   mret [value1; value2; value3]).
Local Abbreviation after_second intercomm local_rank group_index value1
    value2 :=
  (_ ← intercomm_Barrier intercomm;
   third_broadcast intercomm local_rank group_index value1 value2).
Local Abbreviation after_first intercomm local_rank group_index value1 :=
  (_ ← intercomm_Barrier intercomm;
   value2 ← intercomm_broadcast intercomm (999 + 0) local_rank 0
              (bool_decide (group_index = 1%nat));
   _ ← intercomm_Barrier intercomm;
   _ ← intercomm_Barrier intercomm;
   after_second intercomm local_rank group_index value1 value2).

Lemma extended_collectives_world :
  world_of world_size (extended_collectives world_size)
  = world_of (half + rest)
      (by_role half
         (λ r, Create_intercomm (solver_group half) 0 (Z.of_nat half)
                 (λ inter_comm,
                    demonstrate_broadcast inter_comm (Z.of_nat r) r 0))
         (λ j, Create_intercomm (tracker_group half rest) 0 0
                 (λ inter_comm,
                    demonstrate_broadcast inter_comm (Z.of_nat j)
                      (half + j) 1))).
Proof.
  rewrite world_size_halves at 1. apply world_of_ext. intros r Hr.
  rewrite <-world_size_halves in Hr.
  unfold extended_collectives. rewrite our_comm_half by done.
  unfold by_role, group_index.
  destruct (decide (r < half)%nat).
  - unfold solver_group at 1. rewrite Get_rank_seq by lia.
    by rewrite Nat.sub_0_r.
  - unfold tracker_group at 1. by rewrite Get_rank_seq by lia.
Qed.

Lemma run_first_part :
  run 4 (world_of (half + rest)
           (by_role half
              (λ r, demonstrate_broadcast channel (Z.of_nat r) r 0)
              (λ j, demonstrate_broadcast (MPI.mirror channel)
                      (Z.of_nat j) (half + j) 1)))
  = Some (world_of (half + rest)
            (by_role half
               (λ r, after_first channel (Z.of_nat r) 0%nat None)
               (λ j, after_first (MPI.mirror channel) (Z.of_nat j) 1%nat
                       (Some 999)))).
Proof.
  pose proof half_positive. pose proof rest_positive.
  exact (run_first_sending_block half rest ltac:(done) ltac:(done)
           (λ _, 999 + 0) (λ _, 999 + 0) 0
           (λ r value1, after_first channel (Z.of_nat r) 0%nat value1)
           (λ j value1,
              after_first (MPI.mirror channel) (Z.of_nat j) 1%nat value1)
           ltac:(lia)).
Qed.

Lemma run_second_part :
  run 4 (world_of (half + rest)
           (by_role half
              (λ r, after_first channel (Z.of_nat r) 0%nat None)
              (λ j, after_first (MPI.mirror channel) (Z.of_nat j) 1%nat
                      (Some 999))))
  = Some (world_of (half + rest)
            (by_role half
               (λ r, after_second channel (Z.of_nat r) 0%nat None
                       (Some 999))
               (λ j, after_second (MPI.mirror channel) (Z.of_nat j) 1%nat
                       (Some 999) None))).
Proof.
  pose proof half_positive. pose proof rest_positive.
  exact (run_second_sending_block half rest ltac:(done) ltac:(done)
           (λ _, 999 + 0) (λ _, 999 + 0) 0
           (λ r value2,
              after_second channel (Z.of_nat r) 0%nat None value2)
           (λ j value2,
              after_second (MPI.mirror channel) (Z.of_nat j) 1%nat
                (Some 999) value2)
           ltac:(lia)).
Qed.

Lemma run_third_part :
  (4 ≤ world_size)%nat →
  run 4 (world_of (half + rest)
           (by_role half
              (λ r, after_second channel (Z.of_nat r) 0%nat None
                      (Some 999))
              (λ j, after_second (MPI.mirror channel) (Z.of_nat j) 1%nat
                      (Some 999) None)))
  = Some (world_of (half + rest)
            (by_role half (λ _, Ret [None; Some 999; None])
               (λ _, Ret [Some 999; None; Some 1000]))).
Proof.
  intros Hfour. pose proof rest_positive.
  assert (2 ≤ half)%nat by (apply Nat.div_le_lower_bound; lia).
  exact (run_first_sending_block half rest ltac:(lia) ltac:(done)
           (λ _, 999 + 1) (λ _, 999 + 1) 1
           (λ _ value3, Ret [None; Some 999; value3])
           (λ _ value3, Ret [Some 999; None; value3]) ltac:(lia)).
Qed.

(** The creation of the intercommunicator and the first two parts. *)
Lemma run_two_parts :
  run 9 (world_of world_size (extended_collectives world_size))
  = Some (world_of (half + rest)
            (by_role half
               (λ r, after_second channel (Z.of_nat r) 0%nat None
                       (Some 999))
               (λ j, after_second (MPI.mirror channel) (Z.of_nat j) 1%nat
                       (Some 999) None))).
Proof.
  pose proof half_positive. pose proof rest_positive.
  rewrite extended_collectives_world.
  etrans.
  { apply run_step.
    exact (step_creating half rest ltac:(done) ltac:(done)
             (λ r inter_comm,
                demonstrate_broadcast inter_comm (Z.of_nat r) r 0)
             (λ j inter_comm,
                demonstrate_broadcast inter_comm (Z.of_nat j) (half + j)
                  1)). }
  etrans; [exact (run_add 4 4 _)|].
  etrans; [exact (f_equal (λ w, w ≫= run 4) run_first_part)|].
  exact run_second_part.
Qed.

(** The barrier before the third broadcast. *)
Lemma step_third_barrier :
  step (world_of (half + rest)
          (by_role half
             (λ r, after_second channel (Z.of_nat r) 0%nat None
                     (Some 999))
             (λ j, after_second (MPI.mirror channel) (Z.of_nat j) 1%nat
                     (Some 999) None)))
  = Some (world_of (half + rest)
            (by_role half
               (λ r, third_broadcast channel (Z.of_nat r) 0%nat None
                       (Some 999))
               (λ j, third_broadcast (MPI.mirror channel) (Z.of_nat j)
                       1%nat (Some 999) None))).
Proof.
  pose proof half_positive. pose proof rest_positive.
  exact (step_barrier half rest ltac:(done) ltac:(done)
           (λ r _, third_broadcast channel (Z.of_nat r) 0%nat None
                     (Some 999))
           (λ j _, third_broadcast (MPI.mirror channel) (Z.of_nat j)
                     1%nat (Some 999) None)).
Qed.

End demonstration.

(** X7: once the world is split, the demonstration on at least four
    processes goes through the creation of the intercommunicator and three
    times a barrier, a broadcast and two barriers, thirteen matching calls
    on every rank.  Every rank has then printed the values laid out in the
    table of [demonstrate_broadcast], with the [999 + local_root] it sends:
    the first half [None], 999, [None] and the second half 999, [None],
    1000.  On two or three processes the first half has a single rank, as
    the source warns: the first two parts go through, and in the third
    broadcast no rank passes [MPI.ROOT], the rank of the first half
    opting out with [MPI.PROC_NULL], while the second half names the
    root 1, which is no rank of the first half. *)
Theorem extended_collectives_outcome `{MPI.Constants} (world_size : nat) :
  let half := (world_size `div` 2)%nat in
  let channel := solver_channel half (world_size - half) in
  let world := world_of world_size (extended_collectives world_size) in
  ((4 ≤ world_size)%nat →
   run 13 world
   = Some (world_of world_size
             (by_role half (λ _, Ret [None; Some 999; None])
                (λ _, Ret [Some 999; None; Some 1000])))) ∧
  ((2 ≤ world_size < 4)%nat →
   ∃ w, run 10 world = Some w ∧
        (∀ r, (r < half)%nat → ∃ k,
           w !! r = Some (Intercomm_bcast channel None MPI.PROC_NULL k)) ∧
        (∀ j, (j < world_size - half)%nat → ∃ k,
           w !! (half + j)%nat
           = Some (Intercomm_bcast (MPI.mirror channel) None 1 k)) ∧
        MPI.remote_group (MPI.mirror channel) !! Z.to_nat 1 = None).
Proof.
  intros half channel world. split.
  - intros Hsize. unfold world.
    rewrite (run_add 9 4), run_two_parts by lia.
    etrans; [apply run_third_part; lia|].
    apply (f_equal Some).
    apply (f_equal (λ size, world_of size _)).
    symmetry. apply world_size_halves. lia.
  - intros Hsize.
    assert (Hhalf : half = 1%nat).
    { unfold half.
      destruct world_size as [|[|[|[|]]]]; try lia; reflexivity. }
    eexists. split_and!.
    + unfold world. rewrite (run_add 9 1), run_two_parts by lia.
      etrans; [apply run_step, step_third_barrier; lia|]. done.
    + intros r Hr. fold half.
      rewrite lookup_world_of, by_role_solver by lia.
      rewrite intercomm_broadcast_unfold.
      rewrite sending_args_passive by lia. by eexists.
    + intros j Hj. fold half.
      rewrite lookup_world_of, by_role_tracker by lia.
      replace (half + j - half)%nat with j by lia.
      rewrite intercomm_broadcast_unfold. by eexists.
    + simpl. rewrite Hhalf. done.
Qed.

Lemma extended_collectives_outcome_witness :
  run (H := MPICH) 13 (world_of 5 (extended_collectives (H := MPICH) 5))
  = Some [Ret [None; Some 999; None]; Ret [None; Some 999; None];
          Ret [Some 999; None; Some 1000]; Ret [Some 999; None; Some 1000];
          Ret [Some 999; None; Some 1000]].
Proof.
  refine (proj1 (extended_collectives_outcome (H := MPICH) 5) _).
  lia.
Defined.

(** ** The launch order *)

Section tracker_first.
Context `{MPI.Constants}.
Variables (ns nt : nat) (slabel tlabel : string).
Variables (sits sgrid tits tgrid parts : Z).
Hypothesis labels_differ : slabel ≠ tlabel.
Hypothesis solvers : (0 < ns)%nat.
Hypothesis trackers : (0 < nt)%nat.

(** The tracker ranks come first. *)
Local Abbreviation universe :=
  (coupled nt ns (tracker_py tlabel tits tgrid parts)
     (solver_py slabel sits sgrid)).
Local Abbreviation labels := (replicate nt tlabel ++ replicate ns slabel).
Local Abbreviation solver_count :=
  (configure_solver 0 (Z.of_nat ns) sgrid).

Lemma tracker_first_labels : argv0_of <$> universe = labels.
Proof. unfold coupled. by rewrite fmap_app, !fmap_replicate. Qed.

Lemma tracker_first_unfold r :
  (r < nt)%nat →
  tracker labels r tits tgrid parts
  = World_bcast 0 0
      (λ count, if bool_decide (count > 0) then Exit 1
                else tracker_handshake (solver_group nt) (Z.of_nat r)
                       (Z.of_nat nt) tits tgrid parts).
Proof.
  intros Hr. unfold tracker.
  rewrite (partition_solver nt ns tlabel slabel) by done.
  unfold solver_group at 1. rewrite Get_rank_seq by lia.
  unfold MPI.Get_size. simpl MPI.group.
  rewrite length_seq, length_labels, Compare_solver_group, Nat.sub_0_r
    by done.
  reflexivity.
Qed.

Lemma solver_second_unfold r :
  (nt ≤ r < nt + ns)%nat →
  solver labels r sits sgrid
  = World_bcast solver_count 0
      (λ _, if bool_decide (solver_count > 0) then Exit 1
            else solver_started (tracker_group nt ns) (nt + ns)
                   (Z.of_nat (r - nt)) (Z.of_nat ns) sits sgrid).
Proof.
  intros Hr. unfold solver.
  rewrite (partition_tracker nt ns tlabel slabel) by done.
  unfold tracker_group at 1. rewrite Get_rank_seq by lia.
  unfold MPI.Get_size. simpl MPI.group.
  rewrite length_seq, length_labels. reflexivity.
Qed.

Lemma tracker_first_launch :
  launch universe
  = world_of (nt + ns)
      (by_role nt
         (λ r, World_bcast 0 0
                 (λ count, if bool_decide (count > 0) then Exit 1
                           else tracker_handshake (solver_group nt)
                                  (Z.of_nat r) (Z.of_nat nt) tits tgrid
                                  parts))
         (λ j, World_bcast solver_count 0
                 (λ _, if bool_decide (solver_count > 0) then Exit 1
                       else solver_started (tracker_group nt ns) (nt + ns)
                              (Z.of_nat j) (Z.of_nat ns) sits sgrid))).
Proof.
  apply list_eq. intros r. unfold launch. rewrite list_lookup_imap.
  destruct (decide (r < nt + ns)%nat) as [Hr|Hr].
  - rewrite lookup_world_of by done. unfold by_role, coupled at 2.
    case_decide.
    + rewrite lookup_app_l by (by rewrite length_replicate).
      rewrite lookup_replicate_2 by done. simpl.
      by rewrite tracker_first_labels, tracker_first_unfold.
    + rewrite lookup_app_r by (rewrite length_replicate; lia).
      rewrite length_replicate, lookup_replicate_2 by lia. simpl.
      by rewrite tracker_first_labels, solver_second_unfold by lia.
  - rewrite (lookup_ge_None_2 (world_of _ _))
      by (rewrite length_world_of; lia).
    rewrite lookup_ge_None_2; [done|]. unfold coupled.
    rewrite length_app, !length_replicate. lia.
Qed.

Lemma tracker_first_World_bcast_result :
  World_bcast_result (launch universe) 0 = Some 0.
Proof.
  rewrite tracker_first_launch. unfold World_bcast_result.
  rewrite option_guard_True.
  2:{ apply Forall_world_of. intros r _. unfold by_role.
      by destruct (decide (r < nt)%nat). }
  rewrite option_guard_True by done. simpl.
  rewrite lookup_world_of by lia. simpl.
  by rewrite by_role_solver.
Qed.

Lemma tracker_first_step :
  step (launch universe)
  = Some (world_of (nt + ns)
            (by_role nt
               (λ r, tracker_handshake (solver_group nt) (Z.of_nat r)
                       (Z.of_nat nt) tits tgrid parts)
               (λ j, if bool_decide (solver_count > 0) then Exit 1
                     else solver_started (tracker_group nt ns) (nt + ns)
                            (Z.of_nat j) (Z.of_nat ns) sits sgrid))).
Proof.
  pose proof tracker_first_World_bcast_result as Hresult.
  rewrite tracker_first_launch in *.
  apply (step_world_of _ _ _ 0%nat); [lia| |].
  - by rewrite by_role_solver.
  - intros r Hr. destruct (decide (r < nt)%nat).
    + rewrite !(by_role_solver _ _ _ r) by done. cbn [reply].
      by rewrite Hresult.
    + rewrite !(by_role_tracker _ _ _ r) by lia. cbn [reply].
      by rewrite Hresult.
Qed.

End tracker_first.

(** X8: the handshake relies on the solver being launched first.  When the
    tracker ranks come first, world rank 0 is a tracker rank, so the world
    broadcast returns the tracker's placeholder 0 on every rank, whatever
    the solver counted.  After it a solver whose grid size is not valid
    has exited with status 1, while every tracker rank has gone on to
    [Create_intercomm], in which it names world rank 0, a member of its
    own group, as the remote leader. *)
Theorem tracker_first_misses_solver_count `{MPI.Constants} (ns nt : nat)
    (slabel tlabel : string) (sits sgrid tits tgrid parts : Z) :
  slabel ≠ tlabel → (0 < ns)%nat → (0 < nt)%nat →
  let universe :=
    coupled nt ns (tracker_py tlabel tits tgrid parts)
      (solver_py slabel sits sgrid) in
  World_bcast_result (launch universe) 0 = Some 0 ∧
  ∃ w, step (launch universe) = Some w ∧
       (∀ r, (r < nt)%nat → ∃ application_comm k,
          partition_by_string (argv0_of <$> universe) r
          = Some application_comm ∧
          w !! r = Some (Create_intercomm application_comm 0 0 k) ∧
          0%nat ∈ MPI.group application_comm) ∧
       (configure_solver 0 (Z.of_nat ns) sgrid > 0 →
        ∀ j, (j < ns)%nat → w !! (nt + j)%nat = Some (Exit 1)).
Proof.
  intros Hlabels Hns Hnt universe. split.
  - by apply tracker_first_World_bcast_result.
  - eexists. split; [by apply tracker_first_step|]. split.
    + intros r Hr. eexists _, _. split_and!.
      * unfold universe. rewrite tracker_first_labels.
        by apply (partition_solver nt ns tlabel slabel).
      * by rewrite lookup_world_of, by_role_solver by lia.
      * simpl. apply elem_of_seq. lia.
    + intros Hcount j Hj.
      rewrite lookup_world_of, by_role_tracker by lia.
      by rewrite bool_decide_eq_true_2.
Qed.

Lemma tracker_first_misses_solver_count_witness :
  World_bcast_result
    (launch (H := MPICH)
       (coupled 2 3 (tracker_py "tracker.py" 1 10 4)
          (solver_py "solver.py" 1 10)))
    0
  = Some 0.
Proof.
  refine (proj1 (tracker_first_misses_solver_count (H := MPICH) 3 2
                   "solver.py" "tracker.py" 1 10 1 10 4 _ _ _)).
  - intros Heq. discriminate Heq.
  - lia.
  - lia.
Defined.

(** ** Iteration counts of their own *)

Section loop_iteration.
Context `{MPI.Constants}.
Variables (ns nt : nat).
Hypothesis solvers : (0 < ns)%nat.
Hypothesis trackers : (0 < nt)%nat.
Variables (sremaining tremaining : nat).
Variables (slices buffers : nat → fields) (count : nat).
Hypothesis length_slices :
  ∀ r, (r < ns)%nat →
    length (velocity_x (slices r)) = count ∧
    length (velocity_y (slices r)) = count ∧
    length (velocity_z (slices r)) = count.
Hypothesis length_buffers :
  ∀ j, (j < nt)%nat →
    length (velocity_x (buffers j)) = (count * ns)%nat ∧
    length (velocity_y (buffers j)) = (count * ns)%nat ∧
    length (velocity_z (buffers j)) = (count * ns)%nat.

Local Abbreviation channel := (solver_channel ns nt).
Local Abbreviation solver_top r :=
  (solver_loop (Some channel) (slices r) sremaining).
Local Abbreviation tracker_top v :=
  (tracker_loop (MPI.mirror channel) v tremaining).

Local Abbreviation loop_x :=
  (world_of (ns + nt)
     (by_role ns
        (λ r, Allgather channel (velocity_y (slices r)) empty_data
                (λ _, Allgather channel (velocity_z (slices r)) empty_data
                        (λ _, solver_top r)))
        (λ j, Allgather (MPI.mirror channel) empty_data
                (velocity_y (buffers j))
                (λ y, Allgather (MPI.mirror channel) empty_data
                        (velocity_z (buffers j))
                        (λ z, tracker_top
                                {| velocity_x :=
                                     full_field ns velocity_x slices;
                                   velocity_y := y;
                                   velocity_z := z |}))))).

Local Abbreviation loop_y :=
  (world_of (ns + nt)
     (by_role ns
        (λ r, Allgather channel (velocity_z (slices r)) empty_data
                (λ _, solver_top r))
        (λ j, Allgather (MPI.mirror channel) empty_data
                (velocity_z (buffers j))
                (λ z, tracker_top
                        {| velocity_x := full_field ns velocity_x slices;
                           velocity_y := full_field ns velocity_y slices;
                           velocity_z := z |})))).

Lemma step_loop_x :
  step (loop_world ns nt (S sremaining) (S tremaining) slices buffers)
  = Some loop_x.
Proof.
  exact (step_gathering ns nt solvers trackers
           (λ r, velocity_x (slices r)) (λ j, velocity_x (buffers j))
           (λ r _, Allgather channel (velocity_y (slices r)) empty_data
                     (λ _, Allgather channel (velocity_z (slices r))
                             empty_data (λ _, solver_top r)))
           (λ j x, Allgather (MPI.mirror channel) empty_data
                     (velocity_y (buffers j))
                     (λ y, Allgather (MPI.mirror channel) empty_data
                             (velocity_z (buffers j))
                             (λ z, tracker_top
                                     {| velocity_x := x; velocity_y := y;
                                        velocity_z := z |})))
           count
           (λ r Hr, proj1 (length_slices r Hr))
           (λ j Hj, proj1 (length_buffers j Hj))).
Qed.

Lemma step_loop_y : step loop_x = Some loop_y.
Proof.
  exact (step_gathering ns nt solvers trackers
           (λ r, velocity_y (slices r)) (λ j, velocity_y (buffers j))
           (λ r _, Allgather channel (velocity_z (slices r)) empty_data
                     (λ _, solver_top r))
           (λ j y, Allgather (MPI.mirror channel) empty_data
                     (velocity_z (buffers j))
                     (λ z, tracker_top
                             {| velocity_x :=
                                  full_field ns velocity_x slices;
                                velocity_y := y; velocity_z := z |}))
           count
           (λ r Hr, proj1 (proj2 (length_slices r Hr)))
           (λ j Hj, proj1 (proj2 (length_buffers j Hj)))).
Qed.

Lemma step_loop_z :
  step loop_y
  = Some (loop_world ns nt sremaining tremaining slices
            (λ _, gathered ns slices)).
Proof.
  exact (step_gathering ns nt solvers trackers
           (λ r, velocity_z (slices r)) (λ j, velocity_z (buffers j))
           (λ r _, solver_top r)
           (λ j z, tracker_top
                     {| velocity_x := full_field ns velocity_x slices;
                        velocity_y := full_field ns velocity_y slices;
                        velocity_z := z |})
           count
           (λ r Hr, proj2 (proj2 (length_slices r Hr)))
           (λ j Hj, proj2 (proj2 (length_buffers j Hj)))).
Qed.

Lemma run_loop_iteration :
  run 3 (loop_world ns nt (S sremaining) (S tremaining) slices buffers)
  = Some (loop_world ns nt sremaining tremaining slices
            (λ _, gathered ns slices)).
Proof.
  cbn [run]. rewrite step_loop_x. cbn [mbind option_bind].
  rewrite step_loop_y. cbn [mbind option_bind].
  by rewrite step_loop_z.
Qed.

End loop_iteration.

Section loop_mismatch.
Context `{MPI.Constants}.
Variables (ns nt : nat).
Hypothesis solvers : (0 < ns)%nat.
Hypothesis trackers : (0 < nt)%nat.

Lemma run_loop_iterations iterations sremaining tremaining slices buffers
    count :
  (∀ r, (r < ns)%nat →
     length (velocity_x (slices r)) = count ∧
     length (velocity_y (slices r)) = count ∧
     length (velocity_z (slices r)) = count) →
  (∀ j, (j < nt)%nat →
     length (velocity_x (buffers j)) = (count * ns)%nat ∧
     length (velocity_y (buffers j)) = (count * ns)%nat ∧
     length (velocity_z (buffers j)) = (count * ns)%nat) →
  run (3 * iterations)
    (loop_world ns nt (iterations + sremaining) (iterations + tremaining)
       slices buffers)
  = Some (loop_world ns nt sremaining tremaining slices
            (match iterations with
             | O => buffers
             | S _ => λ _, gathered ns slices
             end)).
Proof.
  intros Hslices. revert buffers.
  induction iterations as [|iterations IH]; intros buffers Hbuffers;
    [done|].
  replace (3 * S iterations)%nat with (3 + 3 * iterations)%nat by lia.
  rewrite run_add. cbn [Nat.add].
  rewrite (run_loop_iteration ns nt solvers trackers _ _ _ _ count)
    by done.
  cbn [mbind option_bind]. rewrite IH.
  - by destruct iterations.
  - intros j _. by apply (length_gathered ns nt).
Qed.

End loop_mismatch.

Lemma world_at_loop_counts `{MPI.Constants} (ns nt : nat)
    (solver_iterations tracker_iterations number_grid_points : Z) :
  (0 < ns)%nat →
  configure_solver 0 (Z.of_nat ns) number_grid_points = 0 →
  world_at_loop ns nt solver_iterations number_grid_points
    tracker_iterations number_grid_points
  = loop_world ns nt (Z.to_nat solver_iterations)
      (Z.to_nat tracker_iterations)
      (λ r, allocated
              (replicate
                 (Z.to_nat (number_grid_points `div` Z.of_nat ns))
                 (Z.of_nat r)))
      (λ _, allocated (replicate (Z.to_nat number_grid_points) 0)).
Proof.
  intros Hns [Hgrid Hmod]%configure_solver_0.
  destruct (grid_per_rank_count ns number_grid_points) as [Hdiv _];
    [done..|].
  apply world_of_ext. intros r _. unfold by_role.
  destruct (decide (r < ns)%nat).
  - unfold solver_run, np_ones_times. by rewrite decide_True.
  - unfold tracker_run, np_empty. by rewrite decide_True by lia.
Qed.

(** X9: the two roles never exchange their iteration counts.  In a
    coupled run whose roles both started up with the same grid size but
    with different iteration counts, the iterations both roles have in
    common complete.  After them every rank of the role with the smaller
    count has left its loop, while every rank of the other role has
    entered the first all-gather of a further iteration. *)
Theorem iteration_counts_not_exchanged `{MPI.Constants} (ns nt : nat)
    (slabel tlabel : string)
    (solver_iterations tracker_iterations : Z)
    (number_grid_points number_particles : Z) :
  slabel ≠ tlabel → (0 < ns)%nat → (0 < nt)%nat →
  configure_solver 0 (Z.of_nat ns) number_grid_points = 0 →
  configure_tracker 0 (Z.of_nat nt) number_particles = 0 →
  Z.to_nat solver_iterations ≠ Z.to_nat tracker_iterations →
  let universe :=
    coupled ns nt (solver_py slabel solver_iterations number_grid_points)
      (tracker_py tlabel tracker_iterations number_grid_points
         number_particles) in
  let common :=
    (Z.to_nat solver_iterations `min` Z.to_nat tracker_iterations)%nat in
  let slices := λ r : nat,
    allocated
      (replicate (Z.to_nat (number_grid_points `div` Z.of_nat ns))
         (Z.of_nat r)) in
  ∃ w,
    run (3 + 3 * common) (launch universe) = Some w ∧
    ((Z.to_nat tracker_iterations < Z.to_nat solver_iterations)%nat →
     (∀ r, (r < ns)%nat →
        ∃ p, w !! r = Some p ∧
             pending_Allgather p
             = Some (velocity_x (slices r), empty_data)) ∧
     (∀ j, (j < nt)%nat →
        ∃ v, w !! (ns + j)%nat = Some (Ret v) ∧
             ((0 < common)%nat → v = gathered ns slices))) ∧
    ((Z.to_nat solver_iterations < Z.to_nat tracker_iterations)%nat →
     (∀ r, (r < ns)%nat → w !! r = Some (Ret (slices r))) ∧
     (∀ j, (j < nt)%nat →
        ∃ p recvbuf, w !! (ns + j)%nat = Some p ∧
             pending_Allgather p = Some (empty_data, recvbuf) ∧
             length recvbuf = Z.to_nat number_grid_points)).
Proof.
  intros Hlabels Hns Hnt Hsolver Htracker Hdiffer universe common slices.
  destruct (configure_solver_0 _ _ _ Hsolver) as [Hgrid Hmod].
  destruct (grid_per_rank_count ns number_grid_points) as [Hdiv Hcount];
    [done..|].
  set (a := Z.to_nat solver_iterations) in *.
  set (b := Z.to_nat tracker_iterations) in *.
  set (buffers := λ _ : nat,
         allocated (replicate (Z.to_nat number_grid_points) 0)).
  set (buffers' := match common with
                   | O => buffers
                   | S _ => λ _, gathered ns slices
                   end).
  assert (Hstart :
    run 3 (launch universe) = Some (loop_world ns nt a b slices buffers)).
  { cbn [run]. unfold universe.
    rewrite step_launch by done. rewrite bool_decide_eq_false_2 by lia.
    cbn [mbind option_bind]. rewrite step_world1 by done.
    cbn [mbind option_bind]. rewrite step_world2 by done.
    rewrite bool_decide_eq_false_2 by lia. cbn [mbind option_bind].
    by rewrite world_at_loop_counts. }
  assert (Hslices : ∀ r, (r < ns)%nat →
    length (velocity_x (slices r))
    = Z.to_nat (number_grid_points `div` Z.of_nat ns) ∧
    length (velocity_y (slices r))
    = Z.to_nat (number_grid_points `div` Z.of_nat ns) ∧
    length (velocity_z (slices r))
    = Z.to_nat (number_grid_points `div` Z.of_nat ns)).
  { intros r _. simpl. by rewrite length_replicate. }
  assert (Hloop :
    run (3 + 3 * common) (launch universe)
    = Some (loop_world ns nt (a - common) (b - common) slices buffers')).
  { rewrite run_add, Hstart. cbn [mbind option_bind].
    replace a with (common + (a - common))%nat at 1 by lia.
    replace b with (common + (b - common))%nat at 1 by lia.
    apply (run_loop_iterations ns nt Hns Hnt _ _ _ _ _
             (Z.to_nat (number_grid_points `div` Z.of_nat ns))).
    - done.
    - intros j _. simpl. by rewrite length_replicate. }
  assert (Hlength : ∀ j,
    length (velocity_x (buffers' j)) = Z.to_nat number_grid_points).
  { intros j. unfold buffers'. destruct common.
    - simpl. by rewrite length_replicate.
    - destruct (length_gathered ns nt Hns Hnt slices _ Hslices) as [Hx _].
      rewrite Hx. lia. }
  eexists. split; [exact Hloop|].
  destruct (decide (a < b)%nat) as [Hlt|Hge].
  - replace (a - common)%nat with 0%nat by lia.
    replace (b - common)%nat with (S (b - common - 1)) by lia.
    split; [lia|].
    intros _. unfold loop_world. split.
    + intros r Hr.
      by rewrite lookup_world_of, by_role_solver by lia.
    + intros j Hj. eexists _, _.
      rewrite lookup_world_of, by_role_tracker by lia.
      split_and!; [done|done|apply Hlength].
  - replace (b - common)%nat with 0%nat by lia.
    replace (a - common)%nat with (S (a - common - 1)) by lia.
    split; [|lia].
    intros _. unfold loop_world. split.
    + intros r Hr. eexists.
      rewrite lookup_world_of, by_role_solver by lia.
      split; done.
    + intros j Hj. eexists.
      rewrite lookup_world_of, by_role_tracker by lia.
      split; [done|]. intros Hcommon. unfold buffers'.
      destruct common; [lia|done].
Qed.

Lemma iteration_counts_not_exchanged_witness :
  ∃ w,
    run (H := MPICH) (3 + 3 * 1)
      (launch (H := MPICH)
         (coupled 2 2 (solver_py "solver.py" 2 4)
            (tracker_py "tracker.py" 1 4 6))) = Some w.
Proof.
  destruct (iteration_counts_not_exchanged (H := MPICH) 2 2 "solver.py"
              "tracker.py" 2 1 4 6)
    as (w & Hrun & _).
  - intros Heq. discriminate Heq.
  - lia.
  - lia.
  - reflexivity.
  - reflexivity.
  - intros Heq. discriminate Heq.
  - exists w. exact Hrun.
Defined.

(** ** What the tracker does not validate *)

(** X10: the tracker validates its particle count only.  With a negative
    grid size on the tracker the handshake still goes through: the solver
    ranks receive an error count of 0 and enter their loop, and the
    tracker ranks, past the broadcast of that 0, end with status 1 when
    they allocate their arrays. *)
Theorem tracker_grid_size_unvalidated `{MPI.Constants} (ns nt : nat)
    (slabel tlabel : string) (sits sgrid tits tgrid parts : Z) :
  slabel ≠ tlabel → (0 < ns)%nat → (0 < nt)%nat →
  configure_solver 0 (Z.of_nat ns) sgrid = 0 →
  configure_tracker 0 (Z.of_nat nt) parts = 0 →
  tgrid < 0 →
  let universe :=
    coupled ns nt (solver_py slabel sits sgrid)
      (tracker_py tlabel tits tgrid parts) in
  ∃ w,
    run 3 (launch universe) = Some w ∧
    (∀ j, (j < nt)%nat → w !! (ns + j)%nat = Some (Exit 1)) ∧
    (∀ r, (r < ns)%nat →
       w !! r
       = Some (solver_loop (Some (solver_channel ns nt))
                 (allocated
                    (replicate (Z.to_nat (sgrid `div` Z.of_nat ns))
                       (Z.of_nat r)))
                 (Z.to_nat sits))).
Proof.
  intros Hlabels Hns Hnt Hsolver Htracker Hgrid universe.
  destruct (configure_solver_0 _ _ _ Hsolver) as [Hpositive Hmod].
  destruct (grid_per_rank_count ns sgrid) as [Hdiv _]; [done..|].
  exists (world_at_loop ns nt sits sgrid tits tgrid). split_and!.
  - cbn [run]. unfold universe.
    rewrite step_launch by done. rewrite bool_decide_eq_false_2 by lia.
    cbn [mbind option_bind]. rewrite step_world1 by done.
    cbn [mbind option_bind]. rewrite step_world2 by done.
    by rewrite bool_decide_eq_false_2 by lia.
  - intros j Hj. unfold world_at_loop.
    rewrite lookup_world_of, by_role_tracker by lia.
    unfold tracker_run, np_empty. by rewrite decide_False by lia.
  - intros r Hr. unfold world_at_loop.
    rewrite lookup_world_of, by_role_solver by lia.
    unfold solver_run, np_ones_times. by rewrite decide_True.
Qed.

Lemma tracker_grid_size_unvalidated_witness :
  ∃ w,
    run (H := MPICH) 3
      (launch (H := MPICH)
         (coupled 2 2 (solver_py "solver.py" 1 4)
            (tracker_py "tracker.py" 1 (-4) 6))) = Some w ∧
    w !! 3%nat = Some (Exit 1).
Proof.
  destruct (tracker_grid_size_unvalidated (H := MPICH) 2 2 "solver.py"
              "tracker.py" 1 4 1 (-4) 6)
    as (w & Hrun & Htrackers & _).
  - intros Heq. discriminate Heq.
  - lia.
  - lia.
  - reflexivity.
  - reflexivity.
  - lia.
  - exists w. split; [exact Hrun|]. apply (Htrackers 1%nat). lia.
Defined.

(** ** The leader of a group *)

(** X11: the group id of a process is the world rank of the leader of its
    group: the rank that carries the group id gets the same group and has
    local rank 0 in it. *)
Theorem group_id_is_leader_rank (universe : list string) (rank : nat)
    (group_id : nat) :
  color_index universe rank = Some group_id →
  ∃ comm,
    partition_by_string universe rank = Some comm ∧
    partition_by_string universe group_id = Some comm ∧
    MPI.Get_rank comm group_id = Some 0%nat ∧
    MPI.group comm !! 0%nat = Some group_id.
Proof.
  intros (c & Hrank & Hid & Hfirst)%color_index_Some.
  pose proof (lookup_lt_Some _ _ _ Hid) as Hbound.
  assert (Hget :
    MPI.Get_rank
      {| MPI.context := 1;
         MPI.group := filter (λ q, universe !! q = Some c)
                        (seq 0 (length universe)) |} group_id
    = Some 0%nat).
  { rewrite (Get_rank_filter_seq (λ q, universe !! q = Some c)) by done.
    rewrite filter_none; [done|].
    apply Forall_forall. intros q ?%elem_of_seq Hq.
    destruct (Hfirst q c); [done|lia|done]. }
  eexists. split_and!.
  - by apply partition_by_string_Some.
  - by apply partition_by_string_Some.
  - exact Hget.
  - unfold MPI.Get_rank in Hget. simpl in Hget.
    apply fmap_Some in Hget as ([i x] & Hfind & Hi). simpl in Hi. subst i.
    by apply list_find_Some in Hfind as (Hlookup & <- & _).
Qed.

Lemma group_id_is_leader_rank_witness :
  ∃ comm,
    partition_by_string S_T_universe 3 = Some comm ∧
    partition_by_string S_T_universe 2 = Some comm ∧
    MPI.Get_rank comm 2 = Some 0%nat ∧
    MPI.group comm !! 0%nat = Some 2%nat.
Proof.
  exact (group_id_is_leader_rank S_T_universe 3 2 eq_refl).
Defined.
